(** * open-aasx-index: harvest pipeline, shallow embedding and properties

    The development follows the Python package [harvest]:
    - [config.py]        the fixed caps and rates,
    - [downloader.py]    [inspect_zip] and [download_file],
    - [rate_limiter.py]  [TokenBucket], [ExponentialBackoff], [RateLimiter],
                         [rate_limited_request],
    - [storage.py]       [CatalogEntry], [HarvestState], [CatalogStorage],
                         [StateStorage.update_from_catalog],
                         [deduplicate_candidates],
    - [sources/seeds.py] [_is_domain_allowed], [crawl_seed], [discover],
    - [sources/commoncrawl.py] [search_aasx_urls],
    - [sources/sitemap.py]     [crawl_sitemap],
    - [sources/github.py]      [_blob_to_raw_url], [_extract_repo_from_url],
    - [__main__.py]      [process_candidate] and [run_harvest]: the dry run,
                         the processing loop and the merge step.

    Python [int] is [Z]; [str] is [string]; [bytes] is [list Byte.byte];
    [set[str]] is [gset string]; a [dict] whose order matters is an
    association list in insertion order.  Python [float] values are rationals
    ([Q]): the one float produced from integers ([int / int]) is rounded to
    binary64 as CPython does, the clock arithmetic of the rate limiter is
    carried out exactly. *)

From Stdlib Require Import ZArith QArith Qminmax Lqa Lia Ascii String.
From stdpp Require Import base option list gmap strings pretty.

Local Open Scope Z_scope.

(** ** Python floats *)

Module PyFloat.

(** A finite binary64 value, kept as the rational it denotes. *)
Definition float := Q.

(** Nearest integer to [n / d] for [0 <= n], [0 < d], ties to even. *)
Definition round_half_even (n d : Z) : Z :=
  let q := n / d in
  let r := n mod d in
  if 2 * r <? d then q
  else if d <? 2 * r then q + 1
  else if Z.even q then q else q + 1.

(** [2 ^ e] as a rational, for any sign of [e]. *)
Definition pow2 (e : Z) : Q :=
  if 0 <=? e then inject_Z (2 ^ e) else 1 # (Z.to_pos (2 ^ (- e))).

(** The binary64 exponent of the last place of [n / d] ([0 < n], [0 < d]):
    53 significant bits, never below the subnormal exponent -1074. *)
Definition ulp_exponent (n d : Z) : Z :=
  let k := Z.log2 n - Z.log2 d in
  let below := if 0 <=? k then n <? d * 2 ^ k else n * 2 ^ (- k) <? d in
  let ex := if below then k - 1 else k in
  Z.max (ex - 52) (-1074).

(** [a / b] on Python ints: the exact quotient rounded once to binary64,
    ties to even.  [b = 0] raises [ZeroDivisionError] in Python and is
    guarded by every caller here; the quotient of two ZIP size totals is
    far below the binary64 overflow threshold. *)
Definition int_true_divide (a b : Z) : float :=
  if (a =? 0) || (b =? 0) then 0%Q
  else
    let n := Z.abs a in
    let d := Z.abs b in
    let e := ulp_exponent n d in
    let m := if 0 <=? e then round_half_even n (d * 2 ^ e)
             else round_half_even (n * 2 ^ (- e)) d in
    (inject_Z (Z.sgn a * Z.sgn b * m) * pow2 e)%Q.

(** [x > n] between a float and an int compares the exact values. *)
Definition gt_int (x : float) (n : Z) : bool :=
  if Qlt_le_dec (inject_Z n) x then true else false.

(** [f"{x:.1f}"] for [0 <= x]: one decimal, correctly rounded from the
    exact value, ties to even. *)
Definition format_1f (x : float) : string :=
  let t := round_half_even (Qnum x * 10) (Zpos (Qden x)) in
  pretty (t / 10) +:+ "." +:+ pretty (t mod 10).

End PyFloat.

(** ** Strings, as the Python methods used by the sources *)

Module PyStr.

(** [c.lower()] on an ASCII letter; other bytes are left alone. *)
Definition ascii_lower (c : ascii) : ascii :=
  let n := N_of_ascii c in
  if (65 <=? n)%N && (n <=? 90)%N then ascii_of_N (n + 32) else c.

(** [s.lower()] *)
Fixpoint lower (s : string) : string :=
  match s with
  | EmptyString => EmptyString
  | String c s' => String (ascii_lower c) (lower s')
  end.

(** [s.endswith(suffix)] *)
Fixpoint endswith (s suffix : string) : bool :=
  if String.eqb s suffix then true
  else match s with
       | EmptyString => false
       | String _ s' => endswith s' suffix
       end.



End PyStr.

(** ** config.py *)

Module Config.

Definition MAX_DOWNLOAD_BYTES : Z := 50 * 1024 * 1024.
Definition MAX_UNCOMPRESSED_BYTES : Z := 100 * 1024 * 1024.
Definition MAX_ZIP_ENTRIES : Z := 500.
Definition MAX_COMPRESSION_RATIO : Z := 100.
Definition WEB_REQUESTS_PER_SECOND : Z := 1.
Definition MAX_REDIRECTS : Z := 5.

End Config.

(** ** downloader.py: inspect_zip *)

Module Zip.
Import PyFloat Config.

(** [zipfile.ZipInfo], the two fields read by the inspection.  Both are
    unsigned fields of the central directory. *)
Record ZipInfo := mkZipInfo {
  compress_size : N;
  file_size : N
}.

(** What [zipfile.ZipFile(file_path, "r")] yields: the central directory,
    or [BadZipFile] with its message. *)
Inductive archive :=
| Opened (infos : list ZipInfo)
| BadZipFile (e : string).

Record ZipInspection := mkZipInspection {
  entry_count : Z;
  total_compressed : Z;
  total_uncompressed : Z;
  compression_ratio : float;
  is_safe : bool;
  reason : option string
}.

(** [sum(f(info) for info in infos)] *)
Definition sum_sizes (f : ZipInfo -> N) (infos : list ZipInfo) : Z :=
  foldr (fun info acc => Z.of_N (f info) + acc) 0 infos.

Definition ratio_of (total_uncompressed total_compressed : Z) : float :=
  if 0 <? total_compressed
  then int_true_divide total_uncompressed total_compressed
  else 0%Q.

Definition entries_reason (entry_count : Z) : string :=
  "Too many entries: " +:+ pretty entry_count +:+ " > " +:+ pretty MAX_ZIP_ENTRIES.

Definition size_reason (total_uncompressed : Z) : string :=
  let mb := int_true_divide total_uncompressed (1024 * 1024) in
  let max_mb := int_true_divide MAX_UNCOMPRESSED_BYTES (1024 * 1024) in
  "Uncompressed size too large: " +:+ format_1f mb +:+ "MB > "
    +:+ format_1f max_mb +:+ "MB".

Definition ratio_reason (compression_ratio : float) : string :=
  "Suspicious compression ratio: " +:+ format_1f compression_ratio
    +:+ "x > " +:+ pretty MAX_COMPRESSION_RATIO +:+ "x".

(** The three [if ...: reasons.append(...)] statements, in source order. *)
Definition safety_reasons (entry_count total_uncompressed : Z)
    (compression_ratio : float) : list string :=
  (if MAX_ZIP_ENTRIES <? entry_count then [entries_reason entry_count] else [])
  ++ (if MAX_UNCOMPRESSED_BYTES <? total_uncompressed
      then [size_reason total_uncompressed] else [])
  ++ (if gt_int compression_ratio MAX_COMPRESSION_RATIO
      then [ratio_reason compression_ratio] else []).

(** ["; ".join(reasons)] *)
Definition join_reasons (reasons : list string) : string :=
  String.concat "; " reasons.

Definition inspect_zip (a : archive) : ZipInspection :=
  match a with
  | Opened infos =>
      let entry_count := Z.of_nat (length infos) in
      let total_compressed := sum_sizes compress_size infos in
      let total_uncompressed := sum_sizes file_size infos in
      let compression_ratio := ratio_of total_uncompressed total_compressed in
      let reasons := safety_reasons entry_count total_uncompressed compression_ratio in
      {| entry_count := entry_count;
         total_compressed := total_compressed;
         total_uncompressed := total_uncompressed;
         compression_ratio := compression_ratio;
         is_safe := bool_decide (length reasons = 0%nat);
         reason := match reasons with [] => None | _ => Some (join_reasons reasons) end |}
  | BadZipFile e =>
      {| entry_count := 0;
         total_compressed := 0;
         total_uncompressed := 0;
         compression_ratio := 0%Q;
         is_safe := false;
         reason := Some ("Invalid ZIP file: " +:+ e) |}
  end.


End Zip.

(** ** downloader.py: download_file *)

Module Downloader.
Import PyFloat Config Zip PyStr.

Definition bytes := list Byte.byte.

(** The files below [dest_dir], by path. *)
Abbreviation filesystem := (gmap string bytes).

(** The [DownloadError] hierarchy; each carries [str(e)]. *)
Inductive DownloadError :=
| FileTooLargeError (msg : string)
| ZipBombError (msg : string)
| TooManyRedirectsError (msg : string)
| DownloadFailedError (msg : string).

Definition error_message (e : DownloadError) : string :=
  match e with
  | FileTooLargeError m | ZipBombError m
  | TooManyRedirectsError m | DownloadFailedError m => m
  end.

Record DownloadResult := mkDownloadResult {
  path : string;
  size_bytes : Z;
  sha256 : string;
  content_type : option string;
  filename : option string
}.

(** [httpx.HTTPError]: [httpx.TooManyRedirects] is told apart by the
    outer handler, every other subclass is treated alike. *)
Inductive HTTPError :=
| TooManyRedirects (e : string)
| TransportError (e : string).

(** What [client.head(url)] gives: a response with its [content-length]
    header when present and non-empty (the HTTP layer only lets decimal
    digits through), or an [httpx.HTTPError]. *)
Inductive head_outcome :=
| HeadResponse (content_length : option Z)
| HeadFailed (e : HTTPError).

(** The streamed GET response: [iter_bytes] yields [chunks] and then either
    ends or raises [stream_error]. *)
Record Response := mkResponse {
  status_code : Z;
  reason_phrase : string;
  (** [_extract_filename(response, url)] *)
  extracted_filename : option string;
  header_content_type : option string;
  chunks : list bytes;
  stream_error : option HTTPError
}.

Inductive get_outcome :=
| GetResponse (r : Response)
| GetFailed (e : HTTPError).

Record remote := mkRemote {
  head : head_outcome;
  get : get_outcome
}.

Inductive outcome :=
| Returns (r : DownloadResult)
| Raises (e : DownloadError).

(** [x / (1024 * 1024)] formatted with [.1f] *)
Definition megabytes (x : Z) : string :=
  format_1f (int_true_divide x (1024 * 1024)).

(** The two [except] clauses that close [download_file]. *)
Definition translate_http_error (url : string) (e : HTTPError) : DownloadError :=
  match e with
  | TooManyRedirects _ =>
      TooManyRedirectsError
        ("Too many redirects (>" +:+ pretty MAX_REDIRECTS +:+ ") for " +:+ url)
  | TransportError m => DownloadFailedError ("HTTP error: " +:+ m)
  end.

(** [dest_dir / filename] for a relative file name. *)
Definition path_join (dest_dir filename : string) : string :=
  dest_dir +:+ "/" +:+ filename.

Inductive loop_outcome :=
| Completed (total_bytes : Z)
| BudgetExceeded (total_bytes : Z).

(** The [for chunk in response.iter_bytes(...)] loop, from the running
    [total_bytes]; the file at [dest_path] is open for writing. *)
Fixpoint write_chunks (chunks : list bytes) (total_bytes max_bytes : Z)
    (dest_path : string) (fs : filesystem) : loop_outcome * filesystem :=
  match chunks with
  | [] => (Completed total_bytes, fs)
  | chunk :: rest =>
      let total_bytes := total_bytes + Z.of_nat (length chunk) in
      if max_bytes <? total_bytes
      then (BudgetExceeded total_bytes, delete dest_path fs)
      else write_chunks rest total_bytes max_bytes dest_path
             (alter (fun written => written ++ chunk) dest_path fs)
  end.


(** [content_length and int(content_length) > max_bytes] on the answer to
    the HEAD probe; an [httpx.HTTPError] of the probe is swallowed. *)
Definition declared_too_large (h : head_outcome) (max_bytes : Z) : bool :=
  match h with
  | HeadResponse (Some content_length) => max_bytes <? content_length
  | HeadResponse None => false
  | HeadFailed _ => false
  end.

(** [_extract_filename(response, url) or "download.aasx"] *)
Definition resolved_filename (response : Response) : string :=
  default "download.aasx"
    (match extracted_filename response with
     | Some "" => None
     | o => o
     end).

(** [filename.endswith((".zip", ".aasx")) or content_type in (...)] *)
Definition looks_like_zip (filename : string) (content_type : option string) : bool :=
  endswith filename ".zip" || endswith filename ".aasx"
  || bool_decide (content_type = Some "application/zip")
  || bool_decide (content_type = Some "application/octet-stream").

(** [f"{inspection.reason}"] *)
Definition format_reason (r : option string) : string :=
  match r with Some s => s | None => "None" end.

Section WithLibraries.
(** [hashlib.sha256(data).hexdigest()] and the central-directory reader
    of [zipfile], applied to the file contents. *)
Variable sha256_hexdigest : bytes -> string.
Variable read_zip : bytes -> archive.

(** [download_file(url, dest_dir, max_bytes, check_zip)] against the server
    [srv], on the files [fs]; it returns or raises, and leaves the files
    behind.  The wait on the rate limiter that opens the function only
    delays it, and [dest_dir] is the directory already chosen and made. *)
Definition download_file (url : string) (srv : remote) (dest_dir : string)
    (max_bytes : Z) (check_zip : bool) (fs : filesystem)
    : outcome * filesystem :=
  let head_too_large := declared_too_large (head srv) max_bytes in
  if head_too_large then
    let declared := match head srv with
                    | HeadResponse (Some n) => n
                    | _ => 0
                    end in
    (Raises (FileTooLargeError
       ("File too large: " +:+ megabytes declared +:+ "MB > "
          +:+ megabytes max_bytes +:+ "MB (from Content-Length)")), fs)
  else
    match get srv with
    | GetFailed e => (Raises (translate_http_error url e), fs)
    | GetResponse response =>
        if 400 <=? status_code response then
          (Raises (DownloadFailedError
             ("HTTP " +:+ pretty (status_code response) +:+ ": "
                +:+ reason_phrase response)), fs)
        else
          let filename := resolved_filename response in
          let dest_path := path_join dest_dir filename in
          let opened := <[dest_path := []]> fs in
          match write_chunks (chunks response) 0 max_bytes dest_path opened with
          | (BudgetExceeded total_bytes, fs') =>
              (Raises (FileTooLargeError
                 ("File too large: >" +:+ megabytes total_bytes +:+ "MB > "
                    +:+ megabytes max_bytes +:+ "MB")), fs')
          | (Completed total_bytes, fs') =>
              match stream_error response with
              | Some e => (Raises (translate_http_error url e), fs')
              | None =>
                  let written := default [] (fs' !! dest_path) in
                  let content_type := header_content_type response in
                  let result := {| path := dest_path;
                                   size_bytes := total_bytes;
                                   sha256 := sha256_hexdigest written;
                                   content_type := content_type;
                                   filename := Some filename |} in
                  if check_zip && looks_like_zip filename content_type then
                    let inspection := inspect_zip (read_zip written) in
                    if negb (is_safe inspection)
                    then (Raises (ZipBombError
                            ("Suspicious archive: "
                               +:+ format_reason (reason inspection))),
                          delete dest_path fs')
                    else (Returns result, fs')
                  else (Returns result, fs')
              end
          end
    end.
End WithLibraries.

End Downloader.

(** ** rate_limiter.py *)

Module RateLimit.
Import PyFloat Config.
Local Open Scope Q_scope.

(** *** TokenBucket

    Readings of [time.monotonic()] are passed in by the caller. *)
Record TokenBucket := mkTokenBucket {
  rate : float;
  capacity : float;
  tokens : float;
  last_update : float
}.

(** [TokenBucket(rate, capacity)] with [__post_init__], created at [now]. *)
Definition new_bucket (rate capacity now : float) : TokenBucket :=
  {| rate := rate; capacity := capacity; tokens := capacity; last_update := now |}.

(** [min(a, b)] of Python: [b] when [b < a], otherwise [a]. *)
Definition py_min (a b : float) : float :=
  if Qlt_le_dec b a then b else a.

Definition _refill (now : float) (b : TokenBucket) : TokenBucket :=
  let elapsed := now - last_update b in
  {| rate := rate b;
     capacity := capacity b;
     tokens := py_min (capacity b) (tokens b + elapsed * rate b);
     last_update := now |}.

Definition set_tokens (t : float) (b : TokenBucket) : TokenBucket :=
  {| rate := rate b; capacity := capacity b; tokens := t;
     last_update := last_update b |}.

(** [acquire()]: the wait time, or [None] where Python raises
    [ZeroDivisionError] (no token and [rate == 0]); the refill has
    happened in both cases. *)
Definition acquire (now : float) (b : TokenBucket) : option float * TokenBucket :=
  let b := _refill now b in
  if Qle_bool 1 (tokens b) then (Some 0, set_tokens (tokens b - 1) b)
  else if Qeq_bool (rate b) 0 then (None, b)
  else (Some ((1 - tokens b) / rate b), b).

(** [acquire_async()]: called at [now]; when it has to sleep it wakes up at
    [woke], refills and takes the token. *)
Definition acquire_async (now woke : float) (b : TokenBucket)
    : option unit * TokenBucket :=
  match acquire now b with
  | (None, b) => (None, b)
  | (Some wait_time, b) =>
      if Qlt_le_dec 0 wait_time then
        let b := _refill woke b in
        (Some tt, set_tokens (tokens b - 1) b)
      else (Some tt, b)
  end.









(** *** ExponentialBackoff *)
Record ExponentialBackoff := mkBackoff {
  base_delay : float;
  max_delay : float;
  multiplier : float;
  current_delay : float;
  consecutive_failures : Z
}.

(** [ExponentialBackoff(base_delay, max_delay, multiplier)] with
    [__post_init__]. *)
Definition new_backoff (base_delay max_delay multiplier : float) : ExponentialBackoff :=
  {| base_delay := base_delay; max_delay := max_delay; multiplier := multiplier;
     current_delay := base_delay; consecutive_failures := 0 |}.

(** The field defaults: 1.0, 60.0, 2.0. *)
Definition default_backoff : ExponentialBackoff := new_backoff 1 60 2.

Definition record_failure (b : ExponentialBackoff) : float * ExponentialBackoff :=
  let delay := current_delay b in
  (delay,
   {| base_delay := base_delay b; max_delay := max_delay b;
      multiplier := multiplier b;
      current_delay := py_min (current_delay b * multiplier b) (max_delay b);
      consecutive_failures := (consecutive_failures b + 1)%Z |}).

Definition record_success (b : ExponentialBackoff) : ExponentialBackoff :=
  {| base_delay := base_delay b; max_delay := max_delay b;
     multiplier := multiplier b;
     current_delay := base_delay b;
     consecutive_failures := 0 |}.

(** [wait_after_failure()]: the delay handed to [asyncio.sleep]. *)
Definition wait_after_failure (b : ExponentialBackoff) : float * ExponentialBackoff :=
  record_failure b.

(** What is recorded on a tracker, one outcome after the other. *)
Inductive recorded := Failure | Success.

Definition record (e : recorded) (b : ExponentialBackoff) : ExponentialBackoff :=
  match e with
  | Failure => (record_failure b).2
  | Success => record_success b
  end.



(** *** RateLimiter *)
Record RateLimiter := mkRateLimiter {
  _buckets : gmap string TokenBucket;
  _backoffs : gmap string ExponentialBackoff
}.


Definition get_bucket (source : string) (now : float) (rl : RateLimiter)
    : TokenBucket * RateLimiter :=
  match _buckets rl !! source with
  | Some b => (b, rl)
  | None =>
      let b := new_bucket (inject_Z WEB_REQUESTS_PER_SECOND) 5 now in
      (b, {| _buckets := <[source := b]> (_buckets rl); _backoffs := _backoffs rl |})
  end.

Definition get_backoff (source : string) (rl : RateLimiter)
    : ExponentialBackoff * RateLimiter :=
  match _backoffs rl !! source with
  | Some b => (b, rl)
  | None =>
      (default_backoff,
       {| _buckets := _buckets rl;
          _backoffs := <[source := default_backoff]> (_backoffs rl) |})
  end.


(** The tracker of [source] is a shared object: an update is seen by the
    limiter. *)
Definition set_backoff (source : string) (b : ExponentialBackoff) (rl : RateLimiter)
    : RateLimiter :=
  {| _buckets := _buckets rl; _backoffs := <[source := b]> (_backoffs rl) |}.

(** What one call of [handle_response] did. *)
Record handled := mkHandled {
  retry : bool;
  (** the delays awaited with [asyncio.sleep], in order *)
  slept : list float;
  limiter : RateLimiter
}.

Definition handle_response (source : string) (status_code : Z) (rl : RateLimiter)
    : handled :=
  let '(backoff, rl) := get_backoff source rl in
  if (status_code =? 429)%Z || (status_code =? 503)%Z then
    let '(delay, backoff) := wait_after_failure backoff in
    {| retry := true; slept := [delay]; limiter := set_backoff source backoff rl |}
  else if (status_code =? 403)%Z then
    if (consecutive_failures backoff <? 3)%Z then
      let '(delay, backoff) := wait_after_failure backoff in
      {| retry := true; slept := [delay]; limiter := set_backoff source backoff rl |}
    else {| retry := false; slept := []; limiter := rl |}
  else if (200 <=? status_code)%Z && (status_code <? 300)%Z then
    {| retry := false; slept := [];
       limiter := set_backoff source (record_success backoff) rl |}
  else {| retry := false; slept := []; limiter := rl |}.

End RateLimit.

(** ** storage.py *)

Module Storage.

#[local] Set Warnings "-register-all".

(** A JSON-shaped Python value ([Any] in the annotations).  A [dict] keeps
    its keys in insertion order. *)
Inductive pyval :=
| PNone
| PBool (b : bool)
| PInt (z : Z)
| PStr (s : string)
| PList (l : list pyval)
| PDict (d : list (string * pyval)).

Abbreviation dict := (list (string * pyval)).

(** [d.get(key)] / [d[key]]: [None] here stands for a missing key. *)
Fixpoint dict_get {V} (key : string) (d : list (string * V)) : option V :=
  match d with
  | [] => None
  | (k, v) :: rest => if String.eqb k key then Some v else dict_get key rest
  end.

(** [d[key] = value]: an existing key keeps its position, a new key goes
    to the end. *)
Fixpoint dict_set {V} (key : string) (value : V) (d : list (string * V))
    : list (string * V) :=
  match d with
  | [] => [(key, value)]
  | (k, v) :: rest =>
      if String.eqb k key then (k, value) :: rest
      else (k, v) :: dict_set key value rest
  end.

(** [list(d.values())] *)
Definition dict_values {V} (d : list (string * V)) : list V := d.*2.

Definition dict_keys {V} (d : list (string * V)) : list string := d.*1.

(** Reading a value at the type its annotation promises. *)
Definition as_str (v : pyval) : option string :=
  match v with PStr s => Some s | _ => None end.

Definition as_dict (v : pyval) : option dict :=
  match v with PDict d => Some d | _ => None end.

(** [str | None] *)
Definition as_opt_str (v : pyval) : option (option string) :=
  match v with
  | PNone => Some None
  | PStr s => Some (Some s)
  | _ => None
  end.

Definition of_opt_str (o : option string) : pyval :=
  match o with Some s => PStr s | None => PNone end.

(** [list[str]] *)
Definition as_str_list (v : pyval) : option (list string) :=
  match v with
  | PList l => mapM as_str l
  | _ => None
  end.

(** *** CatalogEntry *)
Record CatalogEntry := mkCatalogEntry {
  id : string;
  file : dict;
  provenance : dict;
  verification : dict;
  metadata : dict
}.

Module CatalogEntry_.
Definition to_dict (self : CatalogEntry) : dict :=
  [ ("id", PStr (id self));
    ("file", PDict (file self));
    ("provenance", PDict (provenance self));
    ("verification", PDict (verification self));
    ("metadata", PDict (metadata self)) ].

(** [None] stands for the [KeyError] of a missing mandatory key, and for
    a value that is not of the annotated type. *)
Definition from_dict (data : dict) : option CatalogEntry :=
  id ← dict_get "id" data ≫= as_str;
  file ← dict_get "file" data ≫= as_dict;
  provenance ← dict_get "provenance" data ≫= as_dict;
  verification ← dict_get "verification" data ≫= as_dict;
  metadata ← match dict_get "metadata" data with
              | Some v => as_dict v
              | None => Some []
              end;
  Some {| id := id; file := file; provenance := provenance;
          verification := verification; metadata := metadata |}.
End CatalogEntry_.

(** *** HarvestState *)
Record HarvestState := mkHarvestState {
  github_cursor : option string;
  commoncrawl_cursor : option string;
  seen_urls : gset string;
  seen_sha256 : gset string;
  last_run : option string
}.

(** [HarvestState()] *)
Definition empty_state : HarvestState :=
  {| github_cursor := None; commoncrawl_cursor := None;
     seen_urls := ∅; seen_sha256 := ∅; last_run := None |}.

Module HarvestState_.
Section Encoding.
(** [list(s)] of a set: the elements once each, in the iteration order
    of the interpreter. *)
Variable list_of_set : gset string -> list string.

Definition to_dict (self : HarvestState) : dict :=
  [ ("github_cursor", of_opt_str (github_cursor self));
    ("commoncrawl_cursor", of_opt_str (commoncrawl_cursor self));
    ("seen_urls", PList (PStr <$> list_of_set (seen_urls self)));
    ("seen_sha256", PList (PStr <$> list_of_set (seen_sha256 self)));
    ("last_run", of_opt_str (last_run self)) ].
End Encoding.

(** [data.get(key)] for a [str | None] field. *)
Definition get_opt_str (key : string) (data : dict) : option (option string) :=
  match dict_get key data with
  | Some v => as_opt_str v
  | None => Some None
  end.

(** [set(data.get(key, []))] *)
Definition get_str_set (key : string) (data : dict) : option (gset string) :=
  match dict_get key data with
  | Some v => list_to_set <$> as_str_list v
  | None => Some ∅
  end.

(** [None] stands for a value that is not of the annotated type. *)
Definition from_dict (data : dict) : option HarvestState :=
  github_cursor ← get_opt_str "github_cursor" data;
  commoncrawl_cursor ← get_opt_str "commoncrawl_cursor" data;
  seen_urls ← get_str_set "seen_urls" data;
  seen_sha256 ← get_str_set "seen_sha256" data;
  last_run ← get_opt_str "last_run" data;
  Some {| github_cursor := github_cursor;
          commoncrawl_cursor := commoncrawl_cursor;
          seen_urls := seen_urls; seen_sha256 := seen_sha256;
          last_run := last_run |}.
End HarvestState_.

(** *** Candidates

    A candidate is the dict built by a source's [to_dict]; the record
    holds what [candidate.get(key)] returns for the keys the harvester
    reads: [None] for a missing key or a [None] value ([source_type] is a
    string whenever the key is there). *)
Record Candidate := mkCandidate {
  url : option string;
  source_type : option string;
  source_ref : option string;
  license : option string
}.

(** Truthiness of [candidate.get("url")]. *)
Definition truthy_url (c : Candidate) : option string :=
  match url c with
  | Some "" => None
  | o => o
  end.

(** The [for candidate in candidates] loop with its
    [if url and url not in state.seen_urls] guard. *)
Fixpoint deduplicate_candidates (candidates : list Candidate)
    (state : HarvestState) : list Candidate :=
  match candidates with
  | [] => []
  | candidate :: rest =>
      let new_candidates := deduplicate_candidates rest state in
      match truthy_url candidate with
      | Some url =>
          if decide (url ∈ seen_urls state) then new_candidates
          else candidate :: new_candidates
      | None => new_candidates
      end
  end.

(** The guard of the loop, as a test on one candidate. *)
Definition is_new (state : HarvestState) (c : Candidate) : bool :=
  match truthy_url c with
  | Some u => bool_decide (u ∉ seen_urls state)
  | None => false
  end.

(** Truthiness of [entry.file.get(key)] for a string field. *)
Definition truthy_str (key : string) (d : dict) : option string :=
  match dict_get key d with
  | Some (PStr s) => if String.eqb s "" then None else Some s
  | _ => None
  end.

Definition add_opt (o : option string) (X : gset string) : gset string :=
  match o with Some x => {[x]} ∪ X | None => X end.

(** [StateStorage.update_from_catalog], over the entries of the catalog. *)
Definition update_from_catalog (state : HarvestState)
    (catalog : list CatalogEntry) : HarvestState :=
  foldl (fun st entry =>
           {| github_cursor := github_cursor st;
              commoncrawl_cursor := commoncrawl_cursor st;
              seen_urls := add_opt (truthy_str "url" (file entry)) (seen_urls st);
              seen_sha256 := add_opt (truthy_str "sha256" (file entry)) (seen_sha256 st);
              last_run := last_run st |})
        state catalog.

End Storage.

(** ** sources/seeds.py *)

Module Seeds.
Import PyStr.

(** The [for allowed in allowed_domains] test for one allowlist entry. *)
Definition domain_matches (domain allowed : string) : bool :=
  let allowed := lower allowed in
  String.eqb domain allowed || endswith domain ("." +:+ allowed).

Section UrlParse.
(** [urlparse(url).netloc]; [None] where [urlparse] raises [ValueError]. *)
Variable urlparse_netloc : string -> option string.

Definition _is_domain_allowed (url : string) (allowed_domains : gset string)
    : option bool :=
  if decide (allowed_domains = ∅) then Some true
  else
    netloc ← urlparse_netloc url;
    let domain := lower netloc in
    Some (existsb (domain_matches domain) (elements allowed_domains)).
End UrlParse.

(** The network location of a URL of the shape [scheme://netloc/...]: what
    stands between the [//] that follows the first [:] and the next [/],
    [?] or [#]. *)
Fixpoint until_delimiter (s : string) : string :=
  match s with
  | EmptyString => EmptyString
  | String c s' =>
      if (Ascii.eqb c "/" || Ascii.eqb c "?" || Ascii.eqb c "#")%char
      then EmptyString
      else String c (until_delimiter s')
  end.

Fixpoint after_colon (s : string) : string :=
  match s with
  | EmptyString => EmptyString
  | String c s' => if Ascii.eqb c ":" then s' else after_colon s'
  end.

Definition netloc_of (url : string) : option string :=
  match after_colon url with
  | String "/" (String "/" rest) => Some (until_delimiter rest)
  | _ => Some EmptyString
  end.

End Seeds.

(** ** __main__.py *)

Module Harvest.
Import Config Zip Downloader Storage.

(** [f"sha256-{'0' * 64}"] *)
Definition placeholder_id : string :=
  "sha256-" +:+ String.concat "" (replicate 64 "0").

Section Run.
Variable sha256_hexdigest : bytes -> string.
Variable read_zip : bytes -> archive.
(** [verify_file(...).to_dict()] and [extract_metadata(...).to_dict()] *)
Variable verify_file : DownloadResult -> dict.
Variable extract_metadata : DownloadResult -> dict.
(** What the network answers for each URL. *)
Variable world : string -> remote.

(** [download_file(url=url, dest_dir=temp_path)] into a fresh temporary
    directory. *)
Definition download (url : string) : outcome :=
  (download_file sha256_hexdigest read_zip url (world url) "aasx_"
     MAX_DOWNLOAD_BYTES true ∅).1.

(** [now] is [datetime.now(UTC).isoformat()]. *)
Definition process_candidate (candidate : Candidate) (now : string)
    : option CatalogEntry :=
  match truthy_url candidate with
  | None => None
  | Some url =>
      match download url with
      | Raises e =>
          Some {| id := placeholder_id;
                  file := [("url", PStr url); ("sha256", PStr "")];
                  provenance :=
                    [("source_type", PStr (default "unknown" (source_type candidate)));
                     ("source_ref", of_opt_str (source_ref candidate));
                     ("license", of_opt_str (license candidate));
                     ("discovered_at", PStr now)];
                  verification :=
                    [("status", PStr "failed");
                     ("summary", PStr ("Download failed: " +:+ error_message e))];
                  metadata := [] |}
      | Returns download_result =>
          let sha256 := sha256 download_result in
          Some {| id := "sha256-" +:+ sha256;
                  file := [("url", PStr url);
                           ("size_bytes", PInt (size_bytes download_result));
                           ("sha256", PStr sha256);
                           ("filename", of_opt_str (filename download_result))];
                  provenance :=
                    [("source_type", PStr (default "unknown" (source_type candidate)));
                     ("source_ref", of_opt_str (source_ref candidate));
                     ("license", of_opt_str (license candidate));
                     ("discovered_at", PStr now);
                     ("last_verified_at", PStr now)];
                  verification := verify_file download_result;
                  metadata := extract_metadata download_result |}
      end
  end.

(** The state of the [for candidate in new_candidates] loop;
    [fetched] lists the URLs handed to [download_file], in order. *)
Record processing := mkProcessing {
  new_entries : list CatalogEntry;
  state : HarvestState;
  processed : Z;
  fetched : list string
}.

Definition record_entry (candidate : Candidate) (entry : CatalogEntry)
    (st : HarvestState) : HarvestState :=
  {| github_cursor := github_cursor st;
     commoncrawl_cursor := commoncrawl_cursor st;
     seen_urls := {[default "" (url candidate)]} ∪ seen_urls st;
     seen_sha256 := add_opt (truthy_str "sha256" (file entry)) (seen_sha256 st);
     last_run := last_run st |}.

(** [clock n] is the time read while the candidate number [n] is
    processed. *)
Fixpoint process_candidates (clock : Z -> string) (max_validate : Z)
    (new_candidates : list Candidate) (p : processing) : processing :=
  match new_candidates with
  | [] => p
  | candidate :: rest =>
      if max_validate <=? processed p then p
      else
        let entry := process_candidate candidate (clock (processed p)) in
        let p :=
          {| new_entries := new_entries p ++ option_list entry;
             state := match entry with
                      | Some e => record_entry candidate e (state p)
                      | None => state p
                      end;
             processed := processed p + 1;
             fetched := fetched p ++ option_list (truthy_url candidate) |} in
        process_candidates clock max_validate rest p
  end.

(** [entries_by_id = {e.id: e for e in existing_entries}], then
    [entries_by_id[entry.id] = entry] for each new entry, then
    [list(entries_by_id.values())]. *)
Definition index_by_id (entries : list CatalogEntry)
    (entries_by_id : list (string * CatalogEntry)) : list (string * CatalogEntry) :=
  foldl (fun d e => dict_set (id e) e d) entries_by_id entries.

Definition merge_entries (existing_entries new_entries : list CatalogEntry)
    : list CatalogEntry :=
  dict_values (index_by_id new_entries (index_by_id existing_entries [])).

(** The [if new_entries:] block: the catalog after the run. *)
Definition update_catalog (catalog new_entries : list CatalogEntry)
    : list CatalogEntry :=
  match new_entries with
  | [] => catalog
  | _ => merge_entries catalog new_entries
  end.

Record harvest := mkHarvest {
  run : processing;
  catalog_after : list CatalogEntry
}.

(** [run_harvest] from the discovered [candidates] on (no dry run):
    reconcile the state with the catalog, deduplicate, process, merge. *)
Definition run_harvest (clock : Z -> string) (max_validate : Z)
    (candidates : list Candidate) (loaded : HarvestState)
    (catalog : list CatalogEntry) : harvest :=
  let state := update_from_catalog loaded catalog in
  let new_candidates := deduplicate_candidates candidates state in
  let p := process_candidates clock max_validate new_candidates
             {| new_entries := []; state := state; processed := 0; fetched := [] |} in
  {| run := p; catalog_after := update_catalog catalog (new_entries p) |}.

End Run.

(** A dict from ids to entries in which every entry sits under its own id. *)
Definition keyed_by_id (d : list (string * CatalogEntry)) : Prop :=
  Forall (fun kv => kv.1 = id kv.2) d.

End Harvest.

(** ** A run in which every download fails *)

Module Scenario.

(** Two candidates on a network where every request fails. *)
Definition unreachable : string -> Downloader.remote :=
  fun _ => Downloader.mkRemote
             (Downloader.HeadFailed (Downloader.TransportError "connection refused"))
             (Downloader.GetFailed (Downloader.TransportError "connection refused")).

Definition two_failing_candidates : list Storage.Candidate :=
  [ Storage.mkCandidate (Some "https://a.example/one.aasx") (Some "seed") None None;
    Storage.mkCandidate (Some "https://b.example/two.aasx") (Some "seed") None None ].

Definition failing_run : Harvest.harvest :=
  Harvest.run_harvest (fun _ => "") (fun _ => Zip.Opened []) (fun _ => []) (fun _ => [])
    unreachable (fun _ => "2024-01-01T00:00:00+00:00") 200
    two_failing_candidates Storage.empty_state [].

End Scenario.

(** ** storage.py: CatalogStorage

    The catalog file is the list of entries it holds, in file order. *)

Module CatalogStorage.
Import Storage.

(** [get_by_id]: the scan over [iter_entries()]. *)
Fixpoint get_by_id (entry_id : string) (entries : list CatalogEntry)
    : option CatalogEntry :=
  match entries with
  | [] => None
  | entry :: rest =>
      if String.eqb (id entry) entry_id then Some entry
      else get_by_id entry_id rest
  end.

(** [entry.file.get(key) == value] for a string [value]. *)
Definition file_field_is (key value : string) (entry : CatalogEntry) : bool :=
  match dict_get key (file entry) with
  | Some (PStr s) => String.eqb s value
  | _ => false
  end.

Fixpoint get_by_url (url : string) (entries : list CatalogEntry)
    : option CatalogEntry :=
  match entries with
  | [] => None
  | entry :: rest =>
      if file_field_is "url" url entry then Some entry else get_by_url url rest
  end.

Fixpoint get_by_sha256 (sha256 : string) (entries : list CatalogEntry)
    : option CatalogEntry :=
  match entries with
  | [] => None
  | entry :: rest =>
      if file_field_is "sha256" sha256 entry then Some entry
      else get_by_sha256 sha256 rest
  end.

(** [append]: one more line at the end of the file. *)
Definition append (entry : CatalogEntry) (entries : list CatalogEntry)
    : list CatalogEntry :=
  entries ++ [entry].

(** The entry written last under an id. *)
Definition last_with_id (entry_id : string) (entries : list CatalogEntry)
    : option CatalogEntry :=
  last (filter (fun e => id e = entry_id) entries).

(** The keys of a dict filled by assignments [d[k] = ...] for [k] in [keys],
    in order. *)
Definition keys_after (start keys : list string) : list string :=
  foldl (fun acc k => if decide (k ∈ acc) then acc else acc ++ [k]) start keys.

End CatalogStorage.

(** ** rate_limiter.py: the limiter's entry points *)

Module Limiter.
Import PyFloat RateLimit.

(** The bucket of [source] is a shared object: what [acquire] did to it is
    seen by the limiter. *)
Definition set_bucket (source : string) (b : TokenBucket) (rl : RateLimiter)
    : RateLimiter :=
  {| _buckets := <[source := b]> (_buckets rl); _backoffs := _backoffs rl |}.


(** [await limiter.acquire(source)], called at [now] and, when it sleeps,
    awake again at [woke]. *)
Definition acquire (source : string) (created now woke : float) (rl : RateLimiter)
    : option unit * RateLimiter :=
  let '(bucket, rl) := get_bucket source created rl in
  let '(r, bucket) := acquire_async now woke bucket in
  (r, set_bucket source bucket rl).

(** What [await request_func()] does at one attempt: it returns a result,
    with its [status_code] when it has that attribute, or raises. *)
Inductive attempt_outcome :=
| Result (status_code : option Z)
| RaisesException.

(** How [rate_limited_request] ends: it returns the result of an attempt,
    re-raises the exception of an attempt, falls out of the loop and returns
    [None], or is left by the [ZeroDivisionError] of [limiter.acquire]. *)
Inductive request_end :=
| ReturnsResult (attempt : Z) (status_code : option Z)
| Reraises (attempt : Z)
| ReturnsNone
| AcquireRaises.

Record request_run := mkRequestRun {
  ended : request_end;
  (** the attempts at which [request_func] was called, in order *)
  called : list Z;
  (** the backoff delays slept, in order *)
  backoff_slept : list float;
  limiter_after : RateLimiter
}.

(** The [for attempt in range(max_retries + 1)] loop over the attempts left;
    [clock attempt] gives the clock readings of the attempt's
    [limiter.acquire]. *)
Fixpoint attempts (source : string) (max_retries : Z)
    (request_func : Z -> attempt_outcome) (clock : Z -> float * float * float)
    (todo : list Z) (rl : RateLimiter) (called : list Z) (backoff_slept : list float)
    : request_run :=
  match todo with
  | [] => mkRequestRun ReturnsNone called backoff_slept rl
  | attempt :: rest =>
      let '(created, now, woke) := clock attempt in
      match acquire source created now woke rl with
      | (None, rl) => mkRequestRun AcquireRaises called backoff_slept rl
      | (Some _, rl) =>
          let called := called ++ [attempt] in
          match request_func attempt with
          | Result (Some status_code) =>
              let h := handle_response source status_code rl in
              if retry h && (attempt <? max_retries)
              then attempts source max_retries request_func clock rest
                     (limiter h) called (backoff_slept ++ slept h)
              else mkRequestRun (ReturnsResult attempt (Some status_code)) called
                     (backoff_slept ++ slept h) (limiter h)
          | Result None =>
              mkRequestRun (ReturnsResult attempt None) called backoff_slept rl
          | RaisesException =>
              if attempt =? max_retries
              then mkRequestRun (Reraises attempt) called backoff_slept rl
              else
                let '(backoff, rl) := get_backoff source rl in
                let '(delay, backoff) := wait_after_failure backoff in
                attempts source max_retries request_func clock rest
                  (set_backoff source backoff rl) called (backoff_slept ++ [delay])
          end
      end
  end.

Definition rate_limited_request (source : string)
    (request_func : Z -> attempt_outcome) (max_retries : Z)
    (clock : Z -> float * float * float) (rl : RateLimiter) : request_run :=
  attempts source max_retries request_func clock (seqZ 0 (max_retries + 1)) rl [] [].

End Limiter.

(** ** sources/seeds.py: crawling the seed pages *)

Module SeedConfig.
Record SeedConfig := mk {
  url : string;
  name : string;
  source_type : string;
  notes : option string
}.
End SeedConfig.

Module SeedCandidate.
Record SeedCandidate := mk {
  url : string;
  source_ref : string;
  filename : option string
}.
End SeedCandidate.

Module UrlPath.

(** ["/" in path] *)
Fixpoint has_slash (path : string) : bool :=
  match path with
  | EmptyString => false
  | String c rest => Ascii.eqb c "/" || has_slash rest
  end.

(** [path.rsplit("/", 1)[-1]]: what follows the last ["/"], the whole of
    [path] when it has none. *)
Fixpoint rsplit_last (path : string) : string :=
  match path with
  | EmptyString => EmptyString
  | String c rest =>
      if has_slash rest then rsplit_last rest
      else if Ascii.eqb c "/" then rest
      else path
  end.

(** [x or None] on a string *)
Definition or_None (s : string) : option string :=
  match s with EmptyString => None | _ => Some s end.

(** [candidates[:n]] *)
Definition slice_to {A} (n : Z) (l : list A) : list A :=
  if 0 <=? n then take (Z.to_nat n) l
  else take (length l - Z.to_nat (- n)) l.

(** What [urlparse(url)] gives, as far as the sources read it. *)
Record ParseResult := mkParseResult {
  netloc : string;
  path : string
}.

End UrlPath.

Module SeedSource.
Import PyStr Seeds UrlPath.

Section Web.
(** [urlparse]; [None] where it raises [ValueError]. *)
Variable urlparse : string -> option ParseResult.
(** [fetch_page]: the text of the page, [None] after an [httpx.HTTPError]. *)
Variable fetch_page : string -> option string.
(** The links found by the [href] pattern, resolved against the base URL,
    as the sorted list of a set. *)
Variable _extract_aasx_links : string -> string -> list string.

Variable allowed_domains : gset string.
Variable max_results : Z.

Definition _get_filename_from_url (url : string) : option (option string) :=
  parsed ← urlparse url;
  let path := path parsed in
  Some (if has_slash path then or_None (rsplit_last path) else None).

(** The [for link in links] loop of [crawl_seed]; [None] where a call
    raises. *)
Fixpoint crawl_links (seed_url : string) (links : list string)
    : option (list SeedCandidate.SeedCandidate) :=
  match links with
  | [] => Some []
  | link :: rest =>
      allowed ← _is_domain_allowed (fun url => netloc <$> urlparse url)
                  link allowed_domains;
      if negb allowed then crawl_links seed_url rest
      else
        filename ← _get_filename_from_url link;
        candidates ← crawl_links seed_url rest;
        Some (SeedCandidate.mk link seed_url filename :: candidates)
  end.

Definition crawl_seed (seed : SeedConfig.SeedConfig)
    : option (list SeedCandidate.SeedCandidate) :=
  match fetch_page (SeedConfig.url seed) with
  | None | Some EmptyString => Some []
  | Some html =>
      crawl_links (SeedConfig.url seed)
        (_extract_aasx_links html (SeedConfig.url seed))
  end.

(** The [for seed in self.seeds] loop of [discover]; [crawled] lists the
    seeds handed to [crawl_seed], in order. *)
Fixpoint discover_loop (seeds : list SeedConfig.SeedConfig)
    (candidates : list SeedCandidate.SeedCandidate)
    (crawled : list SeedConfig.SeedConfig)
    : option (list SeedCandidate.SeedCandidate * list SeedConfig.SeedConfig) :=
  match seeds with
  | [] => Some (candidates, crawled)
  | seed :: rest =>
      if max_results <=? Z.of_nat (length candidates) then Some (candidates, crawled)
      else
        seed_candidates ← crawl_seed seed;
        discover_loop rest (candidates ++ seed_candidates) (crawled ++ [seed])
  end.

Definition discover (seeds : list SeedConfig.SeedConfig)
    : option (list SeedCandidate.SeedCandidate * list SeedConfig.SeedConfig) :=
  '(candidates, crawled) ← discover_loop seeds [] [];
  Some (slice_to max_results candidates, crawled).

(** A candidate as [crawl_seed] makes them for the seed at [seed_url]: it
    names the seed, its URL passes the allowlist, and its file name, when
    it has one, is not empty and has no slash in it. *)
Definition from_seed (seed_url : string) (c : SeedCandidate.SeedCandidate) : Prop :=
  SeedCandidate.source_ref c = seed_url
  /\ _is_domain_allowed (fun url => netloc <$> urlparse url)
       (SeedCandidate.url c) allowed_domains = Some true
  /\ forall name, SeedCandidate.filename c = Some name ->
       name <> "" /\ has_slash name = false.

End Web.
End SeedSource.

(** ** sources/commoncrawl.py *)

Module CommonCrawl.
Import PyStr Seeds UrlPath Storage.

Record CommonCrawlCandidate := mkCandidate {
  url : string;
  source_ref : string;
  domain : option string;
  filename : option string;
  timestamp : option string
}.

Record CommonCrawlState := mkState {
  last_cursor : option string;
  discovered_domains : gset string;
  processed_urls : gset string
}.

(** The state of the [for record in results] loop. *)
Record search := mkSearch {
  candidates : list CommonCrawlCandidate;
  new_domains : gset string;
  state : CommonCrawlState
}.

Section Web.
Variable urlparse : string -> option ParseResult.
(** [query_cdx(url_pattern, limit, cursor)]: the records of the answer, each
    a [dict[str, str]], and the next cursor. *)
Variable query_cdx : string -> Z -> option string
                     -> list (list (string * string)) * option string.

Variable allowed_domains : gset string.
Variable max_results : Z.

Definition _get_filename_from_url (url : string) : option (option string) :=
  parsed ← urlparse url;
  let path := path parsed in
  Some (if has_slash path then or_None (rsplit_last path) else None).

Definition _get_domain_from_url (url : string) : option string :=
  parsed ← urlparse url;
  Some (lower (netloc parsed)).

Definition track_domain (domain : string) (s : search) : search :=
  if decide (domain ∈ discovered_domains (state s)) then s
  else {| candidates := candidates s;
          new_domains := {[domain]} ∪ new_domains s;
          state := {| last_cursor := last_cursor (state s);
                      discovered_domains := {[domain]} ∪ discovered_domains (state s);
                      processed_urls := processed_urls (state s) |} |}.

Definition add_candidate (c : CommonCrawlCandidate) (s : search) : search :=
  {| candidates := candidates s ++ [c];
     new_domains := new_domains s;
     state := {| last_cursor := last_cursor (state s);
                 discovered_domains := discovered_domains (state s);
                 processed_urls := {[url c]} ∪ processed_urls (state s) |} |}.

(** The [for record in results] loop; [None] where a call raises. *)
Fixpoint search_loop (results : list (list (string * string))) (s : search)
    : option search :=
  match results with
  | [] => Some s
  | record :: rest =>
      let url := default "" (dict_get "url" record) in
      if decide (url ∈ processed_urls (state s)) then search_loop rest s
      else if negb (endswith (lower url) ".aasx") then search_loop rest s
      else
        domain ← _get_domain_from_url url;
        let s := track_domain domain s in
        allowed ← (if decide (allowed_domains = ∅) then Some true
                   else _is_domain_allowed (fun url => netloc <$> urlparse url)
                          url allowed_domains);
        if negb allowed then search_loop rest s
        else
          filename ← _get_filename_from_url url;
          let s := add_candidate
                     (mkCandidate url "commoncrawl" (Some domain) filename
                        (dict_get "timestamp" record)) s in
          if max_results <=? Z.of_nat (length (candidates s)) then Some s
          else search_loop rest s
  end.

Definition search_aasx_urls (state : CommonCrawlState)
    : option (list CommonCrawlCandidate * CommonCrawlState) :=
  let '(results, next_cursor) :=
    query_cdx "*.aasx" (Z.min (max_results * 2) 200) (last_cursor state) in
  s ← search_loop results (mkSearch [] ∅ state);
  Some (candidates s,
        {| last_cursor := next_cursor;
           discovered_domains := discovered_domains (CommonCrawl.state s);
           processed_urls := processed_urls (CommonCrawl.state s) |}).

End Web.
End CommonCrawl.

(** ** sources/sitemap.py: the recursion over nested sitemaps *)

Module Sitemap.

(** What one call of [crawl_sitemap] did: the page URLs it returns and the
    sitemap URLs it fetched, in order. *)
Record crawl := mkCrawl {
  page_urls : list string;
  fetched : list string
}.

Section Web.
(** [_fetch]: the text of the answer, [None] after an [httpx.HTTPError]. *)
Variable _fetch : string -> option string.
(** [_parse_sitemap_xml]: the page URLs and the nested sitemap URLs. *)
Variable _parse_sitemap_xml : string -> list string * list string.

(** [crawl_sitemap(sitemap_url, depth)]; [fuel] bounds the nesting of the
    calls, and [None] says that it was used up. *)
Fixpoint crawl_sitemap (fuel : nat) (sitemap_url : string) (depth : Z)
    : option crawl :=
  if 2 <? depth then Some (mkCrawl [] [])
  else
    match fuel with
    | O => None
    | S fuel =>
        match _fetch sitemap_url with
        | None | Some EmptyString => Some (mkCrawl [] [sitemap_url])
        | Some content =>
            let '(page_urls, nested_sitemaps) := _parse_sitemap_xml content in
            foldl (fun acc nested =>
                     acc ← acc;
                     sub ← crawl_sitemap fuel nested (depth + 1);
                     Some (mkCrawl (Sitemap.page_urls acc ++ Sitemap.page_urls sub)
                             (fetched acc ++ fetched sub)))
                  (Some (mkCrawl page_urls [sitemap_url]))
                  (take 5 nested_sitemaps)
        end
    end.

End Web.

(** The levels of nesting a crawl started at [depth] can go through, and
    the fetches that many levels can make: one for the sitemap and five
    times those of a level less for its nested sitemaps. *)
Definition levels_left (depth : Z) : nat := Z.to_nat (3 - depth).

Fixpoint fetch_bound (levels : nat) : nat :=
  match levels with
  | O => 0
  | S levels => 1 + 5 * fetch_bound levels
  end.

End Sitemap.

(** ** sources/github.py: the URL patterns

    The two patterns are built from literal text and capturing groups of
    the shape [(C+)], one or more characters of a class, matched greedily
    with backtracking as [re.match] does: anchored at the start of the
    string, not at its end. *)

Module Regex.

Inductive item :=
| Lit (text : string)
| Group (class : ascii -> bool).

(** [[^/]] and [.] (without [re.DOTALL]) *)
Definition not_slash (c : ascii) : bool := negb (Ascii.eqb c "/").
Definition not_newline (c : ascii) : bool := negb (Ascii.eqb c "010").

(** What is left of [s] after the literal [text]. *)
Fixpoint strip_prefix (text s : string) : option string :=
  match text, s with
  | EmptyString, _ => Some s
  | String a text, String b s => if Ascii.eqb a b then strip_prefix text s else None
  | String _ _, EmptyString => None
  end.

(** [(C+)] followed by the rest of the pattern [k]: the longest run first,
    then each shorter one; [captured] is what the group holds so far. *)
Fixpoint greedy_plus {R} (class : ascii -> bool) (s captured : string)
    (k : string -> string -> option R) : option R :=
  match s with
  | EmptyString => None
  | String c s' =>
      if class c then
        let captured := captured +:+ String c EmptyString in
        match greedy_plus class s' captured k with
        | Some r => Some r
        | None => k captured s'
        end
      else None
  end.

(** [re.match(pattern, s)]: the groups of the match. *)
Fixpoint re_match (pattern : list item) (s : string) : option (list string) :=
  match pattern with
  | [] => Some []
  | Lit text :: pattern =>
      match strip_prefix text s with
      | Some s' => re_match pattern s'
      | None => None
      end
  | Group class :: pattern =>
      greedy_plus class s ""
        (fun captured s' =>
           match re_match pattern s' with
           | Some groups => Some (captured :: groups)
           | None => None
           end)
  end.

(** Every character of [s] is of the class. *)
Fixpoint all_of (class : ascii -> bool) (s : string) : bool :=
  match s with
  | EmptyString => true
  | String c s' => class c && all_of class s'
  end.

(** [matches pattern s groups rest]: the pattern matches a prefix of [s]
    with these groups and leaves [rest]. *)
Inductive matches : list item -> string -> list string -> string -> Prop :=
| matches_nil (s : string) : matches [] s [] s
| matches_lit (text : string) (pattern : list item) (s : string)
    (groups : list string) (rest : string) :
    matches pattern s groups rest ->
    matches (Lit text :: pattern) (text +:+ s) groups rest
| matches_group (class : ascii -> bool) (pattern : list item) (run s : string)
    (groups : list string) (rest : string) :
    run <> "" -> all_of class run = true ->
    matches pattern s groups rest ->
    matches (Group class :: pattern) (run +:+ s) (run :: groups) rest.

(** A run of the class stops before [rest]: [rest] is empty or starts with
    a character that is not of the class. *)
Definition stops (class : ascii -> bool) (rest : string) : Prop :=
  match rest with
  | EmptyString => True
  | String c _ => class c = false
  end.

(** A path segment: not empty, no slash. *)
Definition segment (s : string) : Prop := s <> "" /\ all_of not_slash s = true.

End Regex.

Module GitHub.
Import Regex.

(** [https://github\.com/([^/]+)/([^/]+)/blob/([^/]+)/(.+)] *)
Definition blob_pattern : list item :=
  [Lit "https://github.com/"; Group not_slash; Lit "/"; Group not_slash;
   Lit "/blob/"; Group not_slash; Lit "/"; Group not_newline].

Definition _blob_to_raw_url (blob_url : string) : option string :=
  match re_match blob_pattern blob_url with
  | Some [owner; repo; ref; path] =>
      Some ("https://raw.githubusercontent.com/" +:+ owner +:+ "/" +:+ repo
              +:+ "/" +:+ ref +:+ "/" +:+ path)
  | _ => None
  end.

(** [https://github\.com/([^/]+)/([^/]+)] *)
Definition repo_pattern : list item :=
  [Lit "https://github.com/"; Group not_slash; Lit "/"; Group not_slash].

Definition _extract_repo_from_url (url : string) : option string :=
  match re_match repo_pattern url with
  | Some [owner; repo] => Some (owner +:+ "/" +:+ repo)
  | _ => None
  end.

End GitHub.

(** ** __main__.py: the dry run *)

Module DryRun.
Import Storage UrlPath.


End DryRun.

(** ** rate_limiter.py: what a bucket lets through *)

Module Throughput.
Import PyFloat RateLimit.



End Throughput.

(** ** rate_limiter.py: the delays of a run of failures *)

Module BackoffSchedule.
Import PyFloat RateLimit.
Local Open Scope Q_scope.



End BackoffSchedule.

(** * Properties *)

(** ** Strings *)

Section StringFacts.
Import PyStr.

Lemma append_nil_l (s : string) : "" +:+ s = s.
Proof. reflexivity. Qed.

Lemma append_cons (c : ascii) (s t : string) :
  String c s +:+ t = String c (s +:+ t).
Proof. reflexivity. Qed.


Lemma append_assoc (s t u : string) : (s +:+ t) +:+ u = s +:+ t +:+ u.
Proof.
  induction s as [|c s IH]; [reflexivity|]. now rewrite !append_cons, IH.
Qed.





Lemma endswith_spec (s suffix : string) :
  endswith s suffix = true <-> exists before, s = before +:+ suffix.
Proof.
  induction s as [|c s IH]; cbn [endswith].
  - destruct (String.eqb_spec "" suffix) as [<-|Hne].
    + split; [now exists ""|reflexivity].
    + split; [discriminate|].
      intros ([|c b] & Hb); rewrite ?append_nil_l, ?append_cons in Hb; congruence.
  - destruct (String.eqb_spec (String c s) suffix) as [<-|Hne].
    + split; [now exists ""|reflexivity].
    + rewrite IH. split.
      * intros (b & ->). now exists (String c b).
      * intros ([|c' b] & Hb); rewrite ?append_nil_l, ?append_cons in Hb;
          [congruence|].
        injection Hb as -> ->. now exists b.
Qed.

End StringFacts.

(** ** C1: the verdict of inspect_zip *)

Section InspectZip.
Import PyFloat Config Zip PyStr.


















End InspectZip.

(** ** C2: the byte budget of download_file *)

Section DownloadBudget.
Import Config Zip Downloader.

Variable sha256_hexdigest : bytes -> string.
Variable read_zip : bytes -> archive.



End DownloadBudget.


(** ** C3: one catalog entry per fingerprint *)

Section Merge.
Import Storage Harvest.

Lemma dict_set_keys {V} (key : string) (value : V) (d : list (string * V)) :
  dict_keys (dict_set key value d)
  = if decide (key ∈ dict_keys d) then dict_keys d else dict_keys d ++ [key].
Proof.
  unfold dict_keys. induction d as [|[k v] d IH]; cbn [dict_set fmap list_fmap].
  - rewrite decide_False; [reflexivity|]. apply not_elem_of_nil.
  - destruct (String.eqb_spec k key) as [->|Hne]; cbn.
    + rewrite decide_True; [reflexivity|]. apply elem_of_cons; now left.
    + rewrite IH. destruct (decide (key ∈ d.*1)) as [Hin|Hout].
      * rewrite decide_True; [reflexivity|]. apply elem_of_cons; now right.
      * rewrite decide_False; [reflexivity|].
        rewrite elem_of_cons. intros [->|?]; [congruence|contradiction].
Qed.

Lemma dict_set_NoDup {V} (key : string) (value : V) (d : list (string * V)) :
  NoDup (dict_keys d) -> NoDup (dict_keys (dict_set key value d)).
Proof.
  intros Hd. rewrite dict_set_keys. case_decide; [exact Hd|].
  apply NoDup_app. split; [exact Hd|]. split.
  - intros x Hx Hk. apply list_elem_of_singleton in Hk as ->. contradiction.
  - apply NoDup_singleton.
Qed.

Lemma dict_set_keyed (e : CatalogEntry) (d : list (string * CatalogEntry)) :
  keyed_by_id d -> keyed_by_id (dict_set (id e) e d).
Proof.
  unfold keyed_by_id. induction d as [|[k v] d IH]; intros Hd; cbn [dict_set].
  - repeat constructor.
  - inversion Hd as [|? ? Hk Hrest]; subst. cbn in Hk.
    destruct (String.eqb_spec k (id e)) as [->|Hne].
    + constructor; [reflexivity|exact Hrest].
    + constructor; [exact Hk|]. now apply IH.
Qed.

Lemma index_by_id_invariant (entries : list CatalogEntry) :
  forall d, NoDup (dict_keys d) -> keyed_by_id d ->
    NoDup (dict_keys (index_by_id entries d)) /\ keyed_by_id (index_by_id entries d).
Proof.
  unfold index_by_id.
  induction entries as [|e entries IH]; intros d Hnd Hk; cbn [foldl]; [now split|].
  apply IH; [now apply dict_set_NoDup|now apply dict_set_keyed].
Qed.

Lemma keyed_values_ids (d : list (string * CatalogEntry)) :
  keyed_by_id d -> id <$> dict_values d = dict_keys d.
Proof.
  unfold keyed_by_id, dict_values, dict_keys.
  induction 1 as [|[k v] d Hk _ IH]; cbn in *; [reflexivity|]. now rewrite IH, Hk.
Qed.










End Merge.


(** ** C4: failed downloads in the catalog *)

Section FailedDownloads.
Import Zip Downloader Storage Harvest.

Variable sha256_hexdigest : bytes -> string.
Variable read_zip : bytes -> archive.
Variable verify_file : DownloadResult -> dict.
Variable extract_metadata : DownloadResult -> dict.
Variable world : string -> remote.

(** A failed download is turned into an entry: it has the placeholder id,
    keeps the URL, and says why the download failed. *)
Lemma process_candidate_failed (candidate : Candidate) (now url : string)
    (e : DownloadError) :
  truthy_url candidate = Some url ->
  download sha256_hexdigest read_zip world url = Raises e ->
  exists entry,
    process_candidate sha256_hexdigest read_zip verify_file extract_metadata
      world candidate now = Some entry
    /\ id entry = placeholder_id
    /\ dict_get "url" (file entry) = Some (PStr url)
    /\ dict_get "status" (verification entry) = Some (PStr "failed")
    /\ dict_get "summary" (verification entry)
       = Some (PStr ("Download failed: " +:+ error_message e)).
Proof.
  intros Hurl Hdl. unfold process_candidate. rewrite Hurl, Hdl.
  eexists. split; [reflexivity|]. repeat split.
Qed.

(** Entries with equal ids end up as one entry, the later one. *)
Lemma merge_entries_collision (e1 e2 : CatalogEntry) :
  id e1 = id e2 -> merge_entries [] [e1; e2] = [e2].
Proof.
  intros Heq. unfold merge_entries, index_by_id; cbn [foldl dict_set].
  rewrite Heq, String.eqb_refl. reflexivity.
Qed.

End FailedDownloads.

(** C4.  Both downloads fail and both candidates yield a failed entry, yet
    the two entries carry the same placeholder id and the merge keeps only
    the second: the catalog holds one entry, the failure of the first URL is
    in no catalog entry, and both URLs are marked as seen. *)
Theorem failed_downloads_collapse :
  Storage.id <$> Harvest.new_entries (Harvest.run Scenario.failing_run)
  = [Harvest.placeholder_id; Harvest.placeholder_id]
  /\ length (Harvest.catalog_after Scenario.failing_run) = 1%nat
  /\ (Storage.dict_get "url" <$> (Storage.file <$> Harvest.catalog_after Scenario.failing_run))
     = [Some (Storage.PStr "https://b.example/two.aasx")]
  /\ "https://a.example/one.aasx" ∈ Storage.seen_urls (Harvest.state (Harvest.run Scenario.failing_run))
  /\ "https://b.example/two.aasx" ∈ Storage.seen_urls (Harvest.state (Harvest.run Scenario.failing_run)).
Proof.
  repeat split; try (vm_compute; reflexivity);
    apply (bool_decide_unpack _); vm_compute; exact I.
Qed.

(** ** C5: deduplication against the seen URLs *)

Section Deduplication.
Import Zip Downloader Storage Harvest.

Lemma truthy_url_spec (c : Candidate) (u : string) :
  truthy_url c = Some u <-> url c = Some u /\ u <> "".
Proof.
  unfold truthy_url. destruct (url c) as [[|a s]|].
  - split; [discriminate|]. intros [Hu Hne]. congruence.
  - split.
    + intros [= <-]. split; [reflexivity|discriminate].
    + intros [Hu _]. exact Hu.
  - split; [discriminate|]. intros [Hu _]. discriminate.
Qed.

Lemma deduplicate_candidates_filter (candidates : list Candidate)
    (state : HarvestState) :
  deduplicate_candidates candidates state = List.filter (is_new state) candidates.
Proof.
  induction candidates as [|c l IH]; cbn [deduplicate_candidates List.filter];
    [reflexivity|].
  rewrite IH. unfold is_new. destruct (truthy_url c) as [u|]; [|reflexivity].
  destruct (decide (u ∈ seen_urls state)) as [Hin|Hout].
  - rewrite bool_decide_eq_false_2; [reflexivity|]. intros Hn. now apply Hn.
  - now rewrite bool_decide_eq_true_2.
Qed.

Lemma deduplicate_candidates_elem (candidates : list Candidate)
    (state : HarvestState) (c : Candidate) :
  c ∈ deduplicate_candidates candidates state
  <-> c ∈ candidates
      /\ exists u, url c = Some u /\ u <> "" /\ u ∉ seen_urls state.
Proof.
  rewrite deduplicate_candidates_filter, !list_elem_of_In, filter_In.
  unfold is_new. split.
  - intros [Hin Hnew]. split; [exact Hin|].
    destruct (truthy_url c) as [u|] eqn:Hu; [|discriminate].
    apply truthy_url_spec in Hu as [Hu Hne].
    apply bool_decide_eq_true in Hnew. now exists u.
  - intros [Hin (u & Hu & Hne & Hout)]. split; [exact Hin|].
    assert (Ht : truthy_url c = Some u) by now apply truthy_url_spec.
    rewrite Ht. now apply bool_decide_eq_true.
Qed.

Variable sha256_hexdigest : bytes -> string.
Variable read_zip : bytes -> archive.
Variable verify_file : DownloadResult -> dict.
Variable extract_metadata : DownloadResult -> dict.
Variable world : string -> remote.

(** The loop hands to [download_file] only URLs of the candidates it is
    given. *)
Lemma process_candidates_fetched (clock : Z -> string) (max_validate : Z)
    (new_candidates : list Candidate) :
  forall (p : processing) (u : string),
    u ∈ fetched (process_candidates sha256_hexdigest read_zip verify_file
                   extract_metadata world clock max_validate new_candidates p) ->
    u ∈ fetched p \/ exists c, c ∈ new_candidates /\ truthy_url c = Some u.
Proof.
  induction new_candidates as [|c l IH]; intros p u; cbn [process_candidates].
  - now left.
  - destruct (max_validate <=? processed p); [now left|].
    intros Hu. apply IH in Hu as [Hu|(c' & Hc' & Hurl)].
    + cbn [fetched] in Hu. apply elem_of_app in Hu as [Hu|Hu]; [now left|].
      right. exists c. split; [apply elem_of_cons; now left|].
      destruct (truthy_url c) as [u'|]; cbn in Hu.
      * apply list_elem_of_singleton in Hu as ->. reflexivity.
      * now apply elem_of_nil in Hu.
    + right. exists c'. split; [apply elem_of_cons; now right|exact Hurl].
Qed.

(** C5 (amended).  [deduplicate_candidates] keeps, in order, exactly the
    candidates that have a non-empty URL which is not in the seen-URL set:
    a candidate whose URL is in the set is dropped, and so is one without a
    URL or with an empty one; a list of already-seen URLs yields no new
    candidate.  In a run the filter comes before the downloads: every URL
    handed to [download_file] is absent from the seen set of the state
    reconciled with the catalog. *)
Theorem deduplicate_candidates_exact (candidates : list Candidate)
    (state : HarvestState) :
  deduplicate_candidates candidates state = List.filter (is_new state) candidates
  /\ (forall c, c ∈ deduplicate_candidates candidates state
        <-> c ∈ candidates
            /\ exists u, url c = Some u /\ u <> "" /\ u ∉ seen_urls state)
  /\ ((forall c, c ∈ candidates -> exists u, url c = Some u /\ u ∈ seen_urls state) ->
      deduplicate_candidates candidates state = [])
  /\ (forall clock max_validate catalog u,
        u ∈ fetched (run (run_harvest sha256_hexdigest read_zip verify_file
                            extract_metadata world clock max_validate
                            candidates state catalog)) ->
        (u ∉ seen_urls (update_from_catalog state catalog))
        /\ (exists c, c ∈ candidates /\ url c = Some u)).
Proof.
  split; [apply deduplicate_candidates_filter|].
  split; [apply deduplicate_candidates_elem|]. split.
  - intros Hseen.
    destruct (deduplicate_candidates candidates state) as [|c l] eqn:E; [reflexivity|].
    assert (Hc : c ∈ deduplicate_candidates candidates state).
    { rewrite E. apply elem_of_cons; now left. }
    apply deduplicate_candidates_elem in Hc as (Hin & u & Hu & _ & Hout).
    destruct (Hseen c Hin) as (u' & Hu' & Hin'). congruence.
  - intros clock max_validate catalog u Hu. unfold run_harvest in Hu; cbn [run] in Hu.
    apply process_candidates_fetched in Hu as [Hu|(c & Hc & Hurl)].
    + now apply elem_of_nil in Hu.
    + apply deduplicate_candidates_elem in Hc as (Hin & u' & Hu' & _ & Hout).
      apply truthy_url_spec in Hurl as [Hurl _].
      assert (u' = u) as -> by congruence.
      split; [exact Hout|]. now exists c.
Qed.

End Deduplication.

(** A candidate whose URL is the empty string is dropped although no URL
    has been seen yet: being dropped is not the same as having a seen URL. *)
Lemma deduplicate_drops_unseen_url :
  ~ (forall (candidates : list Storage.Candidate) (state : Storage.HarvestState)
       (c : Storage.Candidate),
       c ∈ candidates ->
       ((c ∉ Storage.deduplicate_candidates candidates state)
        <-> (exists u, Storage.url c = Some u /\ u ∈ Storage.seen_urls state))).
Proof.
  intros H.
  pose (c := Storage.mkCandidate (Some "") (Some "seed") None None).
  destruct (H [c] Storage.empty_state c) as [Hdrop _].
  { apply elem_of_cons; now left. }
  destruct Hdrop as (u & _ & Hin).
  - cbn. apply not_elem_of_nil.
  - cbn in Hin. now apply not_elem_of_empty in Hin.
Qed.

(** Two offered candidates, one of them already seen. *)
Lemma deduplicate_candidates_exact_witness :
  let seen := Storage.mkHarvestState None None {["https://a.example/x.aasx"]} ∅ None in
  let a := Storage.mkCandidate (Some "https://a.example/x.aasx") (Some "seed") None None in
  Storage.deduplicate_candidates [a] seen = [].
Proof.
  intros seen a.
  destruct (deduplicate_candidates_exact (fun _ => "") (fun _ => Zip.Opened [])
              (fun _ => []) (fun _ => []) Scenario.unreachable [a] seen) as (_ & _ & H & _).
  apply H. intros c Hc. apply list_elem_of_singleton in Hc as ->.
  exists "https://a.example/x.aasx". split; [reflexivity|].
  apply (bool_decide_unpack _). vm_compute. exact I.
Defined.

(** ** C6: the token bucket *)

Section TokenBucketFacts.
Import PyFloat RateLimit.
Local Open Scope Q_scope.























End TokenBucketFacts.


(** ** C7: the response-driven retry policy *)

Section ResponsePolicy.
Import PyFloat RateLimit.








End ResponsePolicy.


(** ** C8: the backoff delay *)

Section Backoff.
Import PyFloat RateLimit.
Local Open Scope Q_scope.







End Backoff.


(** ** C9: the domain allowlist *)

Section DomainAllowlist.
Import PyStr Seeds.

Variable urlparse_netloc : string -> option string.

Lemma domain_matches_spec (domain allowed : string) :
  domain_matches domain allowed = true
  <-> domain = lower allowed
      \/ exists sub, domain = sub +:+ "." +:+ lower allowed.
Proof.
  unfold domain_matches. rewrite orb_true_iff, String.eqb_eq, endswith_spec.
  reflexivity.
Qed.

Lemma allowlist_scan (domain : string) (allowed_domains : gset string) :
  existsb (domain_matches domain) (elements allowed_domains) = true
  <-> exists allowed, allowed ∈ allowed_domains
        /\ (domain = lower allowed
            \/ exists sub, domain = sub +:+ "." +:+ lower allowed).
Proof.
  rewrite existsb_exists. split.
  - intros (a & Hin & Hm). exists a. split.
    + apply elem_of_elements, list_elem_of_In, Hin.
    + now apply domain_matches_spec.
  - intros (a & Hin & Hm). exists a. split.
    + apply list_elem_of_In, elem_of_elements, Hin.
    + now apply domain_matches_spec.
Qed.

(** C9 (amended).  With an empty allowlist every URL is accepted.  Otherwise
    a URL is accepted exactly when its host, as [urlparse] gives it
    ([netloc]) and lowercased, equals an allowlist entry that has been
    lowercased too, or ends with a dot followed by that lowercased entry; a
    URL whose [netloc] cannot be parsed is neither accepted nor rejected.  A
    host that only contains an entry, such as [evilexample.com] against
    [example.com], is rejected. *)
Theorem is_domain_allowed_spec (url : string) (allowed_domains : gset string) :
  (allowed_domains = ∅ -> _is_domain_allowed urlparse_netloc url allowed_domains = Some true)
  /\ (allowed_domains <> ∅ ->
      (_is_domain_allowed urlparse_netloc url allowed_domains = Some true
       <-> exists netloc allowed,
             urlparse_netloc url = Some netloc /\ allowed ∈ allowed_domains
             /\ (lower netloc = lower allowed
                 \/ exists sub, lower netloc = sub +:+ "." +:+ lower allowed))
      /\ (_is_domain_allowed urlparse_netloc url allowed_domains = Some false
          <-> exists netloc,
                urlparse_netloc url = Some netloc
                /\ forall allowed, allowed ∈ allowed_domains ->
                     lower netloc <> lower allowed
                     /\ forall sub, lower netloc <> sub +:+ "." +:+ lower allowed))
  /\ (urlparse_netloc url = Some "evilexample.com" ->
      _is_domain_allowed urlparse_netloc url {["example.com"]} = Some false).
Proof.
  split; [|split].
  - intros ->. unfold _is_domain_allowed. now rewrite decide_True.
  - intros Hne. unfold _is_domain_allowed. rewrite decide_False by exact Hne.
    destruct (urlparse_netloc url) as [netloc|]; cbn [mbind option_bind].
    + split.
      * split.
        -- intros [= H]. apply allowlist_scan in H as (a & Hin & Hm).
           now exists netloc, a.
        -- intros (n & a & [= <-] & Hin & Hm). f_equal.
           apply allowlist_scan. now exists a.
      * split.
        -- intros [= H]. exists netloc. split; [reflexivity|].
           intros a Hin. split.
           ++ intros Heq.
              assert (existsb (domain_matches (lower netloc)) (elements allowed_domains)
                      = true) as Ht
                by (apply allowlist_scan; exists a; tauto).
              congruence.
           ++ intros sub Heq.
              assert (existsb (domain_matches (lower netloc)) (elements allowed_domains)
                      = true) as Ht
                by (apply allowlist_scan; exists a; split; [exact Hin|right; now exists sub]).
              congruence.
        -- intros (n & [= <-] & Hnone). f_equal.
           destruct (existsb _ _) eqn:E; [|reflexivity]. exfalso.
           apply allowlist_scan in E as (a & Hin & [Heq|[sub Heq]]);
             destruct (Hnone a Hin) as [H1 H2]; [now apply H1|now apply (H2 sub)].
    + split; split; try discriminate.
      * intros (n & a & Habs & _). discriminate.
      * intros (n & Habs & _). discriminate.
  - intros Hnetloc. unfold _is_domain_allowed. rewrite Hnetloc.
    vm_compute. reflexivity.
Qed.

End DomainAllowlist.

(** The allowlist entry [Example.COM] admits the host [example.com]: the
    lowercased host neither equals the entry as it is written nor ends with
    a dot followed by it. *)
Lemma allowlist_entry_matched_in_lowercase :
  ~ (forall (url : string) (allowed_domains : gset string),
       allowed_domains <> ∅ ->
       (Seeds._is_domain_allowed Seeds.netloc_of url allowed_domains = Some true
        <-> exists netloc allowed,
              Seeds.netloc_of url = Some netloc /\ allowed ∈ allowed_domains
              /\ (PyStr.lower netloc = allowed
                  \/ exists sub, PyStr.lower netloc = sub +:+ "." +:+ allowed))).
Proof.
  intros H.
  destruct (H "https://EXAMPLE.com/file.aasx" {["Example.COM"]}) as [Hfwd _].
  { intros Hempty. apply (f_equal elements) in Hempty. vm_compute in Hempty.
    discriminate. }
  destruct Hfwd as (netloc & allowed & Hnetloc & Hin & Hmatch).
  { vm_compute. reflexivity. }
  apply elem_of_singleton in Hin as ->.
  injection Hnetloc as <-.
  destruct Hmatch as [Heq|Hsuffix].
  - vm_compute in Heq. discriminate.
  - apply endswith_spec in Hsuffix. vm_compute in Hsuffix. discriminate.
Qed.

(** The checks of the test-suite on concrete URLs. *)
Lemma is_domain_allowed_spec_witness :
  Seeds._is_domain_allowed Seeds.netloc_of "https://evilexample.com/file.aasx"
    {["example.com"]} = Some false
  /\ Seeds._is_domain_allowed Seeds.netloc_of "https://notexample.com/file.aasx"
       {["example.com"]} = Some false
  /\ Seeds._is_domain_allowed Seeds.netloc_of "https://deep.sub.example.com/file.aasx"
       {["example.com"]} = Some true
  /\ Seeds._is_domain_allowed Seeds.netloc_of "https://EXAMPLE.com/file.aasx"
       {["Example.COM"]} = Some true
  /\ Seeds._is_domain_allowed Seeds.netloc_of "https://anything.com/file.aasx" ∅
     = Some true.
Proof.
  split.
  - destruct (is_domain_allowed_spec Seeds.netloc_of
                "https://evilexample.com/file.aasx" ∅) as (_ & _ & H).
    apply H. vm_compute. reflexivity.
  - repeat split; vm_compute; reflexivity.
Defined.

(** ** C10: serialization round trips *)

Section RoundTrip.
Import Storage.

(** [list(s)] enumerates the set: each element once, in some order. *)
Variable list_of_set : gset string -> list string.
Hypothesis list_of_set_enumerates : forall X, list_of_set X ≡ₚ elements X.

Lemma as_str_list_encoded (l : list string) :
  as_str_list (PList (PStr <$> l)) = Some l.
Proof.
  cbn [as_str_list]. induction l as [|x l IH]; [reflexivity|].
  cbn [fmap list_fmap mapM]. cbn [fmap list_fmap] in IH. rewrite IH. reflexivity.
Qed.

Lemma set_of_list_of_set (X : gset string) :
  list_to_set (list_of_set X) = X.
Proof.
  rewrite (list_to_set_perm_L _ _ (list_of_set_enumerates X)).
  apply list_to_set_elements_L.
Qed.

Lemma as_opt_str_encoded (o : option string) : as_opt_str (of_opt_str o) = Some o.
Proof. now destruct o. Qed.

Lemma harvest_state_round_trip (s : HarvestState) :
  HarvestState_.from_dict (HarvestState_.to_dict list_of_set s) = Some s.
Proof.
  destruct s as [gh cc urls shas lr].
  unfold HarvestState_.from_dict, HarvestState_.to_dict,
    HarvestState_.get_opt_str, HarvestState_.get_str_set.
  cbn [dict_get String.eqb Ascii.eqb Bool.eqb github_cursor commoncrawl_cursor
       seen_urls seen_sha256 last_run].
  rewrite !as_opt_str_encoded, !as_str_list_encoded. cbn [mbind option_bind fmap option_fmap option_map].
  now rewrite !set_of_list_of_set.
Qed.

Lemma catalog_entry_round_trip (e : CatalogEntry) :
  CatalogEntry_.from_dict (CatalogEntry_.to_dict e) = Some e.
Proof. now destruct e. Qed.

(** C10.  Decoding the dict of a [HarvestState] gives the state back:
    both cursors, the last-run timestamp and the two sets, whatever the
    order in which the sets were listed.  Decoding the dict of a
    [CatalogEntry] gives the entry back. *)
Theorem serialization_round_trips (s : HarvestState) (e : CatalogEntry) :
  HarvestState_.from_dict (HarvestState_.to_dict list_of_set s) = Some s
  /\ CatalogEntry_.from_dict (CatalogEntry_.to_dict e) = Some e.
Proof. split; [apply harvest_state_round_trip|apply catalog_entry_round_trip]. Qed.

End RoundTrip.

(** A state with a cursor and two seen URLs, and an entry with nested
    values. *)
Lemma serialization_round_trips_witness :
  let s := Storage.mkHarvestState (Some "3") None
             {["https://a.example/x.aasx"; "https://b.example/y.aasx"]}
             {["ab12"]} (Some "2024-01-01T00:00:00+00:00") in
  let e := Storage.mkCatalogEntry "sha256-ab12"
             [("url", Storage.PStr "https://a.example/x.aasx");
              ("size_bytes", Storage.PInt 42)]
             [("license", Storage.PNone)]
             [("status", Storage.PStr "verified")]
             [("semantic_ids", Storage.PList [Storage.PStr "urn:x"])] in
  Storage.HarvestState_.from_dict
    (Storage.HarvestState_.to_dict elements s) = Some s
  /\ Storage.CatalogEntry_.from_dict (Storage.CatalogEntry_.to_dict e) = Some e.
Proof.
  intros s e.
  apply (serialization_round_trips elements).
  intros X. reflexivity.
Defined.

(** ** The catalog store: lookups after a merge *)

Section CatalogLookups.
Import Storage CatalogStorage Harvest.

Lemma dict_get_set {V} (k k' : string) (v : V) (d : list (string * V)) :
  dict_get k (dict_set k' v d) = if decide (k' = k) then Some v else dict_get k d.
Proof.
  induction d as [|[k0 v0] d IH]; cbn [dict_set dict_get].
  - destruct (String.eqb_spec k' k) as [->|Hne].
    + now rewrite decide_True.
    + now rewrite decide_False.
  - destruct (String.eqb_spec k0 k') as [->|Hne0]; cbn [dict_get].
    + destruct (String.eqb_spec k' k) as [->|Hne].
      * now rewrite decide_True.
      * now rewrite decide_False.
    + destruct (String.eqb_spec k0 k) as [->|Hne].
      * rewrite decide_False; [reflexivity|congruence].
      * exact IH.
Qed.

Lemma last_with_id_app (i : string) (l1 l2 : list CatalogEntry) :
  last_with_id i (l1 ++ l2)
  = match last_with_id i l2 with
    | Some e => Some e
    | None => last_with_id i l1
    end.
Proof.
  unfold last_with_id. rewrite filter_app.
  destruct (filter (fun e => id e = i) l2) as [|x l] eqn:E using rev_ind.
  - now rewrite app_nil_r.
  - rewrite app_assoc, !last_snoc. reflexivity.
Qed.

Lemma last_with_id_singleton (i : string) (e : CatalogEntry) :
  last_with_id i [e] = if decide (id e = i) then Some e else None.
Proof.
  unfold last_with_id. destruct (decide (id e = i)) as [Heq|Hne].
  - now rewrite filter_cons_True.
  - now rewrite filter_cons_False.
Qed.

Lemma dict_get_index_by_id (i : string) (entries : list CatalogEntry) :
  forall d,
    dict_get i (index_by_id entries d)
    = match last_with_id i entries with
      | Some e => Some e
      | None => dict_get i d
      end.
Proof.
  unfold index_by_id.
  induction entries as [|e entries IH] using rev_ind; intros d.
  - reflexivity.
  - rewrite foldl_app; cbn [foldl].
    rewrite dict_get_set, last_with_id_app, last_with_id_singleton.
    destruct (decide (id e = i)); [reflexivity|apply IH].
Qed.

Lemma get_by_id_values (i : string) (d : list (string * CatalogEntry)) :
  keyed_by_id d -> get_by_id i (dict_values d) = dict_get i d.
Proof.
  unfold keyed_by_id, dict_values.
  induction 1 as [|[k v] d Hk _ IH]; cbn in *; [reflexivity|].
  rewrite <- Hk. destruct (String.eqb k i); [reflexivity|exact IH].
Qed.

End CatalogLookups.

Section CatalogMerge.
Import Storage CatalogStorage Harvest.

Lemma merge_entries_keyed (existing new_entries : list CatalogEntry) :
  keyed_by_id (index_by_id new_entries (index_by_id existing [])).
Proof.
  destruct (index_by_id_invariant existing []) as [Hnd Hk];
    [apply NoDup_nil_2|constructor|].
  now destruct (index_by_id_invariant new_entries _ Hnd Hk).
Qed.

Lemma last_with_id_None (i : string) (entries : list CatalogEntry) :
  last_with_id i entries = None <-> forall e, e ∈ entries -> id e <> i.
Proof.
  unfold last_with_id. rewrite last_None. split.
  - intros Hnil e He Hid.
    assert (Hin : e ∈ filter (fun e => id e = i) entries)
      by (apply list_elem_of_filter; now split).
    rewrite Hnil in Hin. now apply elem_of_nil in Hin.
  - intros Hnone. destruct (filter _ entries) as [|x l] eqn:E; [reflexivity|].
    assert (Hin : x ∈ filter (fun e => id e = i) entries)
      by (rewrite E; apply elem_of_cons; now left).
    apply list_elem_of_filter in Hin as [Hid Hx]. now destruct (Hnone x Hx).
Qed.

Lemma get_by_id_merge (existing new_entries : list CatalogEntry) (i : string) :
  get_by_id i (merge_entries existing new_entries)
  = last_with_id i (existing ++ new_entries).
Proof.
  unfold merge_entries.
  rewrite get_by_id_values by apply merge_entries_keyed.
  rewrite !dict_get_index_by_id, last_with_id_app. cbn [dict_get].
  destruct (last_with_id i new_entries); [reflexivity|].
  now destruct (last_with_id i existing).
Qed.

(** X1.  After the merge a lookup by id returns the entry written last
    under that id, the new entries counting as written after the existing
    ones; it finds nothing exactly when no entry, existing or new, has the
    id.  The merge therefore never loses an id. *)
Theorem merge_lookup_last_write (existing new_entries : list CatalogEntry)
    (entry_id : string) :
  get_by_id entry_id (merge_entries existing new_entries)
  = last_with_id entry_id (existing ++ new_entries)
  /\ (get_by_id entry_id (merge_entries existing new_entries) = None
      <-> forall e, e ∈ existing ++ new_entries -> id e <> entry_id)
  /\ (forall e, e ∈ existing ++ new_entries ->
        exists kept, get_by_id (id e) (merge_entries existing new_entries) = Some kept
                     /\ id kept = id e).
Proof.
  split; [apply get_by_id_merge|]. split.
  - rewrite get_by_id_merge. apply last_with_id_None.
  - intros e He. rewrite get_by_id_merge.
    destruct (last_with_id (id e) (existing ++ new_entries)) as [kept|] eqn:E.
    + exists kept. split; [reflexivity|].
      unfold last_with_id in E. apply last_Some_elem_of in E.
      now apply list_elem_of_filter in E as [Hid _].
    + pose proof (proj1 (last_with_id_None _ _) E e He) as Habs. now destruct Habs.
Qed.

Lemma index_by_id_keys (entries : list CatalogEntry) :
  forall d, dict_keys (index_by_id entries d)
            = keys_after (dict_keys d) (id <$> entries).
Proof.
  unfold index_by_id, keys_after.
  induction entries as [|e entries IH]; intros d; cbn [foldl fmap list_fmap];
    [reflexivity|].
  rewrite IH, dict_set_keys. reflexivity.
Qed.

(** X2.  The merged catalog lists each id once, in the order in which the
    ids first appear among the existing entries followed by the new ones: an
    existing entry keeps its place when it is overwritten, a new id goes to
    the end. *)
Theorem merge_ids_in_first_appearance_order (existing new_entries : list CatalogEntry) :
  id <$> merge_entries existing new_entries
  = keys_after [] (id <$> (existing ++ new_entries)).
Proof.
  unfold merge_entries.
  rewrite keyed_values_ids by apply merge_entries_keyed.
  rewrite !index_by_id_keys, fmap_app. unfold keys_after. now rewrite foldl_app.
Qed.

(** X3.  [append] puts the entry at the end of the catalog and replaces
    nothing: a lookup by id still returns an earlier entry with the same id
    when there is one, and the appended entry otherwise.  The merge of a
    later run settles it the other way: unless one of the new entries has
    the id, the appended entry is the one kept under it. *)
Theorem append_does_not_replace (entry : CatalogEntry) (entries : list CatalogEntry)
    (entry_id : string) :
  length (append entry entries) = S (length entries)
  /\ get_by_id entry_id (append entry entries)
     = match get_by_id entry_id entries with
       | Some earlier => Some earlier
       | None => if decide (id entry = entry_id) then Some entry else None
       end
  /\ (forall new_entries,
        (forall e, e ∈ new_entries -> id e <> id entry) ->
        get_by_id (id entry) (merge_entries (append entry entries) new_entries)
        = Some entry).
Proof.
  split; [|split].
  - unfold append. rewrite length_app. cbn. lia.
  - unfold append. induction entries as [|x l IH]; cbn [app get_by_id].
    + destruct (String.eqb_spec (id entry) entry_id) as [Heq|Hne].
      * now rewrite decide_True.
      * now rewrite decide_False.
    + destruct (String.eqb (id x) entry_id); [reflexivity|exact IH].
  - intros new_entries Hfresh. rewrite get_by_id_merge, last_with_id_app.
    rewrite (proj2 (last_with_id_None (id entry) new_entries) Hfresh).
    unfold append. rewrite last_with_id_app, last_with_id_singleton.
    now rewrite decide_True.
Qed.

End CatalogMerge.

(** ** The state across a run *)

Section Reconciliation.
Import Storage.

Lemma truthy_str_spec (key : string) (d : dict) (u : string) :
  truthy_str key d = Some u <-> dict_get key d = Some (PStr u) /\ u <> "".
Proof.
  unfold truthy_str.
  destruct (dict_get key d) as [[| | |s| |]|];
    try (split; [discriminate|intros [? _]; discriminate]).
  destruct (String.eqb_spec s "") as [->|Hne].
  - split; [discriminate|]. intros [[= <-] Hne]. congruence.
  - split.
    + intros [= <-]. now split.
    + intros [[= <-] _]. reflexivity.
Qed.

Lemma elem_of_add_opt (o : option string) (X : gset string) (u : string) :
  u ∈ add_opt o X <-> u ∈ X \/ o = Some u.
Proof.
  destruct o as [x|]; cbn [add_opt].
  - rewrite elem_of_union, elem_of_singleton. split.
    + intros [->|H]; [now right|now left].
    + intros [H|[= ->]]; [now right|now left].
  - split; [now left|]. intros [H|H]; [exact H|discriminate].
Qed.

Lemma update_from_catalog_elem (state : HarvestState) (catalog : list CatalogEntry) :
  (forall u, u ∈ seen_urls (update_from_catalog state catalog)
     <-> u ∈ seen_urls state
         \/ exists e, e ∈ catalog /\ truthy_str "url" (file e) = Some u)
  /\ (forall h, h ∈ seen_sha256 (update_from_catalog state catalog)
        <-> h ∈ seen_sha256 state
            \/ exists e, e ∈ catalog /\ truthy_str "sha256" (file e) = Some h).
Proof.
  unfold update_from_catalog. revert state.
  induction catalog as [|e catalog IH]; intros state; cbn [foldl].
  - split; intros x; (split; [now left|]); intros [H|(e & He & _)]; try exact H;
      now apply elem_of_nil in He.
  - destruct (IH {| github_cursor := github_cursor state;
                    commoncrawl_cursor := commoncrawl_cursor state;
                    seen_urls := add_opt (truthy_str "url" (file e)) (seen_urls state);
                    seen_sha256 := add_opt (truthy_str "sha256" (file e)) (seen_sha256 state);
                    last_run := last_run state |}) as [Hu Hs].
    cbn [seen_urls seen_sha256] in Hu, Hs. split.
    + intros u. rewrite Hu, elem_of_add_opt. split.
      * intros [[H|H]|(e' & He' & H)]; [now left| |].
        -- right. exists e. split; [apply elem_of_cons; now left|exact H].
        -- right. exists e'. split; [apply elem_of_cons; now right|exact H].
      * intros [H|(e' & He' & H)]; [now left; left|].
        apply elem_of_cons in He' as [->|He']; [now left; right|].
        right. now exists e'.
    + intros h. rewrite Hs, elem_of_add_opt. split.
      * intros [[H|H]|(e' & He' & H)]; [now left| |].
        -- right. exists e. split; [apply elem_of_cons; now left|exact H].
        -- right. exists e'. split; [apply elem_of_cons; now right|exact H].
      * intros [H|(e' & He' & H)]; [now left; left|].
        apply elem_of_cons in He' as [->|He']; [now left; right|].
        right. now exists e'.
Qed.

Lemma update_from_catalog_cursors (state : HarvestState) (catalog : list CatalogEntry) :
  github_cursor (update_from_catalog state catalog) = github_cursor state
  /\ commoncrawl_cursor (update_from_catalog state catalog) = commoncrawl_cursor state
  /\ last_run (update_from_catalog state catalog) = last_run state.
Proof.
  unfold update_from_catalog. revert state.
  induction catalog as [|e catalog IH]; intros state; cbn [foldl]; [now repeat split|].
  destruct (IH {| github_cursor := github_cursor state;
                  commoncrawl_cursor := commoncrawl_cursor state;
                  seen_urls := add_opt (truthy_str "url" (file e)) (seen_urls state);
                  seen_sha256 := add_opt (truthy_str "sha256" (file e)) (seen_sha256 state);
                  last_run := last_run state |}) as (Hg & Hc & Hl).
  now repeat split.
Qed.

(** X4.  Reconciling the state with the catalog leaves the cursors and the
    last-run timestamp alone and only adds to the seen sets: afterwards a
    URL is seen exactly when it was seen before or is the non-empty [url]
    of a catalog entry, and likewise for the hashes. *)
Theorem update_from_catalog_seen (state : HarvestState) (catalog : list CatalogEntry) :
  let state' := update_from_catalog state catalog in
  github_cursor state' = github_cursor state
  /\ commoncrawl_cursor state' = commoncrawl_cursor state
  /\ last_run state' = last_run state
  /\ (forall u, u ∈ seen_urls state'
        <-> u ∈ seen_urls state
            \/ exists e, e ∈ catalog
                 /\ dict_get "url" (file e) = Some (PStr u) /\ u <> "")
  /\ (forall h, h ∈ seen_sha256 state'
        <-> h ∈ seen_sha256 state
            \/ exists e, e ∈ catalog
                 /\ dict_get "sha256" (file e) = Some (PStr h) /\ h <> "").
Proof.
  intros state'. subst state'.
  destruct (update_from_catalog_cursors state catalog) as (Hg & Hc & Hl).
  destruct (update_from_catalog_elem state catalog) as [Hu Hs].
  split; [exact Hg|]. split; [exact Hc|]. split; [exact Hl|]. split.
  - intros u. rewrite Hu. split; (intros [H|(e & He & H)]; [now left|right]);
      exists e; (split; [exact He|]); now apply truthy_str_spec.
  - intros h. rewrite Hs. split; (intros [H|(e & He & H)]; [now left|right]);
      exists e; (split; [exact He|]); now apply truthy_str_spec.
Qed.

Import CatalogStorage.

Lemma get_by_field_spec (key value : string) (catalog : list CatalogEntry)
    (get : string -> list CatalogEntry -> option CatalogEntry) :
  (forall v l, get v l = match l with
                         | [] => None
                         | entry :: rest =>
                             if file_field_is key v entry then Some entry else get v rest
                         end) ->
  match get value catalog with
  | Some entry =>
      exists before after,
        catalog = before ++ entry :: after
        /\ dict_get key (file entry) = Some (PStr value)
        /\ forall e, e ∈ before -> dict_get key (file e) <> Some (PStr value)
  | None => forall e, e ∈ catalog -> dict_get key (file e) <> Some (PStr value)
  end.
Proof.
  intros Hget. induction catalog as [|entry rest IH]; rewrite Hget.
  - intros e He. now apply elem_of_nil in He.
  - assert (Hfield : file_field_is key value entry = true
                     <-> dict_get key (file entry) = Some (PStr value)).
    { unfold file_field_is. destruct (dict_get key (file entry)) as [[| | |s| |]|];
        try (split; [discriminate|intros [=]]).
      destruct (String.eqb_spec s value) as [->|Hne]; [tauto|].
      split; [discriminate|]. intros [= ->]. contradiction. }
    destruct (file_field_is key value entry) eqn:E.
    + exists [], rest. split; [reflexivity|]. split; [now apply Hfield|].
      intros e He. now apply elem_of_nil in He.
    + assert (Hno : dict_get key (file entry) <> Some (PStr value)).
      { intros H. apply Hfield in H. discriminate. }
      destruct (get value rest) as [found|].
      * destruct IH as (before & after & -> & Hf & Hbefore).
        exists (entry :: before), after. split; [reflexivity|]. split; [exact Hf|].
        intros e He. apply elem_of_cons in He as [->|He]; [exact Hno|now apply Hbefore].
      * intros e He. apply elem_of_cons in He as [->|He]; [exact Hno|now apply IH].
Qed.

(** X15.  [get_by_url] returns the first entry of the catalog whose file
    [url] is the one asked for, and [None] exactly when there is none;
    [get_by_sha256] does the same on the hash.  They agree with the state:
    once the state is reconciled with the catalog, every non-empty URL or
    hash that a lookup finds is among the seen ones, and starting from an
    empty state nothing else is. *)
Theorem lookups_agree_with_state (catalog : list CatalogEntry) (value : string) :
  match get_by_url value catalog with
  | Some entry =>
      exists before after,
        catalog = before ++ entry :: after
        /\ dict_get "url" (file entry) = Some (PStr value)
        /\ forall e, e ∈ before -> dict_get "url" (file e) <> Some (PStr value)
  | None => forall e, e ∈ catalog -> dict_get "url" (file e) <> Some (PStr value)
  end
  /\ match get_by_sha256 value catalog with
     | Some entry =>
         exists before after,
           catalog = before ++ entry :: after
           /\ dict_get "sha256" (file entry) = Some (PStr value)
           /\ forall e, e ∈ before -> dict_get "sha256" (file e) <> Some (PStr value)
     | None => forall e, e ∈ catalog -> dict_get "sha256" (file e) <> Some (PStr value)
     end
  /\ (value <> "" ->
      forall state,
        (is_Some (get_by_url value catalog) ->
         value ∈ seen_urls (update_from_catalog state catalog))
        /\ (is_Some (get_by_sha256 value catalog) ->
            value ∈ seen_sha256 (update_from_catalog state catalog)))
  /\ (value ∈ seen_urls (update_from_catalog empty_state catalog)
      <-> value <> "" /\ is_Some (get_by_url value catalog))
  /\ (value ∈ seen_sha256 (update_from_catalog empty_state catalog)
      <-> value <> "" /\ is_Some (get_by_sha256 value catalog)).
Proof.
  pose proof (get_by_field_spec "url" value catalog get_by_url
                ltac:(intros v [|e l]; reflexivity)) as Hurl.
  pose proof (get_by_field_spec "sha256" value catalog get_by_sha256
                ltac:(intros v [|e l]; reflexivity)) as Hsha.
  split; [exact Hurl|]. split; [exact Hsha|].
  assert (Hfound_url : is_Some (get_by_url value catalog)
                       <-> exists e, e ∈ catalog
                                     /\ dict_get "url" (file e) = Some (PStr value)).
  { destruct (get_by_url value catalog) as [entry|].
    - destruct Hurl as (before & after & -> & Hf & _). split; [|intros _; now eexists].
      intros _. exists entry. split; [|exact Hf].
      apply elem_of_app. right. apply elem_of_cons. now left.
    - split; [intros [x [=]]|]. intros (e & He & Hf). now destruct (Hurl e He). }
  assert (Hfound_sha : is_Some (get_by_sha256 value catalog)
                       <-> exists e, e ∈ catalog
                                     /\ dict_get "sha256" (file e) = Some (PStr value)).
  { destruct (get_by_sha256 value catalog) as [entry|].
    - destruct Hsha as (before & after & -> & Hf & _). split; [|intros _; now eexists].
      intros _. exists entry. split; [|exact Hf].
      apply elem_of_app. right. apply elem_of_cons. now left.
    - split; [intros [x [=]]|]. intros (e & He & Hf). now destruct (Hsha e He). }
  split; [|split].
  - intros Hne state. destruct (update_from_catalog_elem state catalog) as [Hu Hs]. split.
    + intros Hf. apply Hfound_url in Hf as (e & He & Hf). apply Hu. right.
      exists e. split; [exact He|]. now apply truthy_str_spec.
    + intros Hf. apply Hfound_sha in Hf as (e & He & Hf). apply Hs. right.
      exists e. split; [exact He|]. now apply truthy_str_spec.
  - destruct (update_from_catalog_elem empty_state catalog) as [Hu _].
    rewrite Hu, Hfound_url. split.
    + intros [H|(e & He & H)]; [now apply elem_of_empty in H|].
      apply truthy_str_spec in H as [H Hne]. split; [exact Hne|now exists e].
    + intros [Hne (e & He & H)]. right. exists e. split; [exact He|].
      now apply truthy_str_spec.
  - destruct (update_from_catalog_elem empty_state catalog) as [_ Hs].
    rewrite Hs, Hfound_sha. split.
    + intros [H|(e & He & H)]; [now apply elem_of_empty in H|].
      apply truthy_str_spec in H as [H Hne]. split; [exact Hne|now exists e].
    + intros [Hne (e & He & H)]. right. exists e. split; [exact He|].
      now apply truthy_str_spec.
Qed.

End Reconciliation.

(** ** The processing loop of a run *)

Section ProcessingLoop.
Import Zip Downloader Storage Harvest.

Variable sha256_hexdigest : bytes -> string.
Variable read_zip : bytes -> archive.
Variable verify_file : DownloadResult -> dict.
Variable extract_metadata : DownloadResult -> dict.
Variable world : string -> remote.

Abbreviation process_candidate :=
  (process_candidate sha256_hexdigest read_zip verify_file extract_metadata world).
Abbreviation process_candidates :=
  (process_candidates sha256_hexdigest read_zip verify_file extract_metadata world).
Abbreviation run_harvest :=
  (run_harvest sha256_hexdigest read_zip verify_file extract_metadata world).

(** A candidate with a URL always yields an entry, one without never. *)
Lemma process_candidate_some (candidate : Candidate) (now : string) :
  match truthy_url candidate with
  | Some u => exists entry, process_candidate candidate now = Some entry
                            /\ dict_get "url" (file entry) = Some (PStr u)
  | None => process_candidate candidate now = None
  end.
Proof.
  unfold Harvest.process_candidate. destruct (truthy_url candidate) as [u|]; [|reflexivity].
  destruct (download _ _ _ u); eexists; split; reflexivity.
Qed.

Lemma truthy_url_default (candidate : Candidate) (u : string) :
  truthy_url candidate = Some u -> default "" (url candidate) = u.
Proof. intros H. apply truthy_url_spec in H as [-> _]. reflexivity. Qed.

(** What one pass of the loop over [new_candidates] does to its state. *)
Lemma process_candidates_step (clock : Z -> string) (max_validate : Z)
    (new_candidates : list Candidate) :
  forall p,
    let p' := process_candidates clock max_validate new_candidates p in
    processed p <= processed p'
    /\ processed p' <= Z.max (processed p) max_validate
    /\ processed p' - processed p <= Z.of_nat (length new_candidates)
    /\ (Z.of_nat (length (fetched p')) - Z.of_nat (length (fetched p))
        <= processed p' - processed p)
    /\ (Z.of_nat (length (new_entries p')) - Z.of_nat (length (new_entries p))
        = Z.of_nat (length (fetched p')) - Z.of_nat (length (fetched p)))
    /\ seen_urls (state p) ⊆ seen_urls (state p')
    /\ seen_sha256 (state p) ⊆ seen_sha256 (state p')
    /\ (forall u, u ∈ fetched p' -> u ∈ fetched p \/ u ∈ seen_urls (state p'))
    /\ (processed p + Z.of_nat (length new_candidates) <= max_validate ->
        forall c u, c ∈ new_candidates -> truthy_url c = Some u ->
                    u ∈ seen_urls (state p')).
Proof.
  induction new_candidates as [|c l IH]; intros p; cbn [Harvest.process_candidates].
  - cbn zeta. repeat split; try lia; try reflexivity.
    + intros u Hu. now left.
    + intros _ c u Hc. now apply elem_of_nil in Hc.
  - destruct (Z.leb_spec max_validate (processed p)) as [Hfull|Hroom].
    + cbn zeta. repeat split; try lia; try reflexivity.
      * intros u Hu. now left.
      * cbn [length]. intros Hmax. lia.
    + set (q := {| new_entries := new_entries p ++ option_list (process_candidate c (clock (processed p)));
                   state := match process_candidate c (clock (processed p)) with
                            | Some e => record_entry c e (state p)
                            | None => state p
                            end;
                   processed := processed p + 1;
                   fetched := fetched p ++ option_list (truthy_url c) |}).
      specialize (IH q). cbn zeta in IH |- *.
      destruct IH as (H1 & H2 & H3 & H4 & H5 & H6 & H7 & H8 & H9).
      pose proof (process_candidate_some c (clock (processed p))) as Hentry.
      assert (Hq_urls : seen_urls (state p) ⊆ seen_urls (state q)).
      { subst q; cbn [state]. destruct (process_candidate c _); [|reflexivity].
        cbn [record_entry seen_urls]. apply union_subseteq_r. }
      assert (Hq_sha : seen_sha256 (state p) ⊆ seen_sha256 (state q)).
      { subst q; cbn [state]. destruct (process_candidate c _) as [e|]; [|reflexivity].
        cbn [record_entry seen_sha256]. intros x Hx. apply elem_of_add_opt. now left. }
      assert (Hq_len : (length (new_entries q) - length (new_entries p)
                        = length (fetched q) - length (fetched p))%nat).
      { subst q; cbn [new_entries fetched]. rewrite !length_app.
        destruct (truthy_url c) as [u|].
        - destruct Hentry as (e & -> & _). cbn. lia.
        - rewrite Hentry. cbn. lia. }
      assert (Hq_grow : (length (new_entries p) <= length (new_entries q)
                         /\ length (fetched p) <= length (fetched q)
                         /\ length (fetched q) <= S (length (fetched p)))%nat).
      { subst q; cbn [new_entries fetched]. rewrite !length_app.
        destruct (truthy_url c), (process_candidate c _); cbn; lia. }
      assert (Hq_c : forall u, truthy_url c = Some u -> u ∈ seen_urls (state q)).
      { intros u Hu. subst q; cbn [state]. rewrite Hu in Hentry.
        destruct Hentry as (e & -> & _). cbn [record_entry seen_urls].
        rewrite (truthy_url_default c u Hu). apply elem_of_union_l, elem_of_singleton.
        reflexivity. }
      change (processed q) with (processed p + 1) in *.
      split; [lia|]. split; [lia|]. split; [cbn [length]; lia|].
      split; [lia|]. split; [lia|].
      split; [etransitivity; eassumption|]. split; [etransitivity; eassumption|].
      split.
      * intros u Hu. apply H8 in Hu as [Hu|Hu]; [|now right].
        subst q; cbn [fetched] in Hu. apply elem_of_app in Hu as [Hu|Hu]; [now left|].
        right. apply H6. apply Hq_c.
        destruct (truthy_url c) as [u'|]; cbn in Hu.
        -- apply list_elem_of_singleton in Hu as ->. reflexivity.
        -- now apply elem_of_nil in Hu.
      * cbn [length]. intros Hmax c' u Hc' Hu.
        apply elem_of_cons in Hc' as [->|Hc'].
        -- apply H6. now apply Hq_c.
        -- apply (H9 ltac:(lia) c' u Hc' Hu).
Qed.


Lemma update_from_catalog_grows (loaded : HarvestState) (catalog : list CatalogEntry) :
  seen_urls loaded ⊆ seen_urls (update_from_catalog loaded catalog)
  /\ seen_sha256 loaded ⊆ seen_sha256 (update_from_catalog loaded catalog).
Proof.
  unfold update_from_catalog. revert loaded.
  induction catalog as [|e catalog IH]; intros loaded; cbn [foldl]; [split; reflexivity|].
  destruct (IH {| github_cursor := github_cursor loaded;
                  commoncrawl_cursor := commoncrawl_cursor loaded;
                  seen_urls := add_opt (truthy_str "url" (file e)) (seen_urls loaded);
                  seen_sha256 := add_opt (truthy_str "sha256" (file e)) (seen_sha256 loaded);
                  last_run := last_run loaded |}) as [Hu Hs].
  cbn [seen_urls seen_sha256] in Hu, Hs. split.
  - etransitivity; [|exact Hu]. intros x Hx. apply elem_of_add_opt. now left.
  - etransitivity; [|exact Hs]. intros x Hx. apply elem_of_add_opt. now left.
Qed.



(** X7.  When the budget of a run covers all its new candidates, running
    again on the same candidates, from any state that has kept the seen URLs
    of the first run and from the catalog the first run left, finds nothing
    to do: no candidate is new, nothing is downloaded, and the catalog stays
    as it is. *)
Theorem rerun_finds_nothing_new (clock clock' : Z -> string) (max_validate max_validate' : Z)
    (candidates : list Candidate) (loaded loaded' : HarvestState)
    (catalog : list CatalogEntry) :
  let h := run_harvest clock max_validate candidates loaded catalog in
  Z.of_nat (length (deduplicate_candidates candidates
                      (update_from_catalog loaded catalog))) <= max_validate ->
  seen_urls (state (run h)) ⊆ seen_urls loaded' ->
  let h' := run_harvest clock' max_validate' candidates loaded' (catalog_after h) in
  deduplicate_candidates candidates (update_from_catalog loaded' (catalog_after h)) = []
  /\ fetched (run h') = []
  /\ new_entries (run h') = []
  /\ catalog_after h' = catalog_after h.
Proof.
  intros h Hbudget Hkept h'.
  assert (Hnone : deduplicate_candidates candidates
                    (update_from_catalog loaded' (catalog_after h)) = []).
  { destruct (deduplicate_candidates candidates
                (update_from_catalog loaded' (catalog_after h))) as [|c l] eqn:E;
      [reflexivity|].
    assert (Hc : c ∈ deduplicate_candidates candidates
                       (update_from_catalog loaded' (catalog_after h)))
      by (rewrite E; apply elem_of_cons; now left).
    apply deduplicate_candidates_elem in Hc as (Hin & u & Hu & Hne & Hout).
    destruct Hout.
    apply (proj1 (update_from_catalog_grows loaded' (catalog_after h))), Hkept.
    subst h. unfold Harvest.run_harvest. cbn [run].
    set (st := update_from_catalog loaded catalog) in *.
    set (p0 := {| new_entries := []; state := st; processed := 0; fetched := [] |}).
    pose proof (process_candidates_step clock max_validate
                  (deduplicate_candidates candidates st) p0) as Hstep.
    cbn zeta in Hstep. cbn [p0 processed state] in Hstep.
    destruct Hstep as (_ & _ & _ & _ & _ & Hgrow & _ & _ & Hall).
    destruct (decide (u ∈ seen_urls st)) as [Hseen|Hnew]; [now apply Hgrow|].
    apply (Hall ltac:(lia) c u).
    - apply deduplicate_candidates_elem. split; [exact Hin|]. now exists u.
    - now apply truthy_url_spec. }
  split; [exact Hnone|]. subst h'. unfold Harvest.run_harvest at 1 2 3.
  cbn [run catalog_after]. rewrite Hnone. cbn [Harvest.process_candidates new_entries fetched update_catalog].
  repeat split.
Qed.

End ProcessingLoop.

(** Two candidates on an unreachable network, run twice. *)
Lemma rerun_finds_nothing_new_witness :
  let h := Scenario.failing_run in
  let h' := Harvest.run_harvest (fun _ => "") (fun _ => Zip.Opened []) (fun _ => [])
              (fun _ => []) Scenario.unreachable (fun _ => "2024-01-02T00:00:00+00:00") 200
              Scenario.two_failing_candidates (Harvest.state (Harvest.run h))
              (Harvest.catalog_after h) in
  Storage.deduplicate_candidates Scenario.two_failing_candidates
    (Storage.update_from_catalog (Harvest.state (Harvest.run h)) (Harvest.catalog_after h)) = []
  /\ Harvest.fetched (Harvest.run h') = []
  /\ Harvest.new_entries (Harvest.run h') = []
  /\ Harvest.catalog_after h' = Harvest.catalog_after h.
Proof.
  intros h h'.
  apply (rerun_finds_nothing_new (fun _ => "") (fun _ => Zip.Opened []) (fun _ => [])
           (fun _ => []) Scenario.unreachable (fun _ => "2024-01-01T00:00:00+00:00")
           (fun _ => "2024-01-02T00:00:00+00:00") 200 200
           Scenario.two_failing_candidates Storage.empty_state
           (Harvest.state (Harvest.run h)) []).
  - vm_compute. discriminate.
  - reflexivity.
Defined.

(** ** What a download leaves behind *)

Section DownloadOutcomes.
Import Config Zip Downloader.

Variable sha256_hexdigest : bytes -> string.
Variable read_zip : bytes -> archive.






End DownloadOutcomes.


(** ** The limiter's entry points *)

Section LimiterCalls.
Import PyFloat RateLimit Limiter.

Lemma slept_length (source : string) (status_code : Z) (rl : RateLimiter) :
  length (slept (handle_response source status_code rl))
  = if retry (handle_response source status_code rl) then 1%nat else 0%nat.
Proof.
  unfold handle_response. destruct (get_backoff source rl) as [backoff rl'].
  destruct ((status_code =? 429) || (status_code =? 503)); [reflexivity|].
  destruct (status_code =? 403).
  - destruct (consecutive_failures backoff <? 3); reflexivity.
  - destruct ((200 <=? status_code) && (status_code <? 300)); reflexivity.
Qed.

Lemma retry_rate_limited (source : string) (status_code : Z) (rl : RateLimiter) :
  status_code = 429 \/ status_code = 503 ->
  retry (handle_response source status_code rl) = true.
Proof.
  intros Hcode. unfold handle_response. destruct (get_backoff source rl) as [backoff rl'].
  destruct Hcode as [->| ->]; reflexivity.
Qed.

(** The loop from any point on: which attempts are made, how it ends, and
    how many backoff delays are slept. *)
Lemma attempts_spec (source : string) (max_retries : Z)
    (request_func : Z -> attempt_outcome) (clock : Z -> float * float * float)
    (todo : list Z) :
  forall (rl : RateLimiter) (called0 : list Z) (slept0 : list float),
    let r := attempts source max_retries request_func clock todo rl called0 slept0 in
    exists done,
      called r = called0 ++ done /\ done `prefix_of` todo
      /\ match ended r with
         | ReturnsResult a st =>
             last done = Some a /\ request_func a = Result st
             /\ (a < max_retries -> st <> Some 429 /\ st <> Some 503)
             /\ (length slept0 + length done <= S (length (backoff_slept r)))%nat
             /\ (length (backoff_slept r) <= length slept0 + length done)%nat
             /\ (st = Some 429 \/ st = Some 503 ->
                 length (backoff_slept r) = (length slept0 + length done)%nat)
         | Reraises a =>
             last done = Some a /\ a = max_retries
             /\ request_func a = RaisesException
             /\ S (length (backoff_slept r)) = (length slept0 + length done)%nat
         | ReturnsNone =>
             done = todo /\ (forall a, a ∈ todo -> a <> max_retries)
             /\ length (backoff_slept r) = (length slept0 + length done)%nat
         | AcquireRaises => True
         end.
Proof.
  induction todo as [|attempt rest IH]; intros rl called0 slept0; cbn [attempts].
  - cbn zeta. exists []. cbn [ended called backoff_slept length].
    rewrite app_nil_r. split; [reflexivity|]. split; [reflexivity|].
    split; [reflexivity|]. split; [|lia]. intros a Ha. now apply elem_of_nil in Ha.
  - destruct (clock attempt) as [[created now] woke].
    destruct (acquire source created now woke rl) as [[[]|] rl1].
    2:{ cbn zeta. exists []. cbn [ended called]. rewrite app_nil_r.
        split; [reflexivity|]. split; [apply prefix_nil|exact I]. }
    destruct (request_func attempt) as [[status_code|]|] eqn:Hreq.
    + pose proof (slept_length source status_code rl1) as Hslept.
      destruct (retry (handle_response source status_code rl1)) eqn:Hretry;
        [destruct (Z.ltb_spec attempt max_retries) as [Hlt|Hge]|]; cbn [andb].
      * specialize (IH (limiter (handle_response source status_code rl1))
                       (called0 ++ [attempt])
                       (slept0 ++ slept (handle_response source status_code rl1))).
        cbn zeta in IH |- *. destruct IH as (done & Hcalled & Hprefix & Hend).
        exists (attempt :: done). rewrite Hcalled, <- app_assoc.
        split; [reflexivity|]. split; [now apply prefix_cons|].
        rewrite length_app, Hslept in Hend. cbn [length].
        destruct (ended _) as [a st|a| |]; [| | |exact I].
        -- destruct Hend as (Hlast & Hres & Hcode & Hlo & Hhi & Hall).
           split; [now rewrite last_cons, Hlast|]. split; [exact Hres|].
           split; [exact Hcode|]. split; [lia|]. split; [lia|].
           intros Hst. specialize (Hall Hst). lia.
        -- destruct Hend as (Hlast & Hmax & Hres & Hlen).
           split; [now rewrite last_cons, Hlast|]. split; [exact Hmax|].
           split; [exact Hres|]. lia.
        -- destruct Hend as (-> & Hnot & Hlen). split; [reflexivity|]. split; [|lia].
           intros a Ha. apply elem_of_cons in Ha as [->|Ha]; [lia|now apply Hnot].
      * cbn zeta. exists [attempt]. cbn [ended called backoff_slept length last].
        split; [reflexivity|]. split; [apply prefix_cons, prefix_nil|].
        rewrite length_app, Hslept.
        split; [reflexivity|]. split; [exact Hreq|]. split; [lia|].
        split; [lia|]. split; [lia|]. intros _. lia.
      * cbn zeta. exists [attempt]. cbn [ended called backoff_slept length last].
        split; [reflexivity|]. split; [apply prefix_cons, prefix_nil|].
        rewrite length_app, Hslept.
        split; [reflexivity|]. split; [exact Hreq|]. split.
        { intros _. split; intros [= ->];
            rewrite retry_rate_limited in Hretry by tauto; discriminate. }
        split; [lia|]. split; [lia|].
        intros [[= ->]|[= ->]];
          rewrite retry_rate_limited in Hretry by tauto; discriminate.
    + cbn zeta. exists [attempt]. cbn [ended called backoff_slept length last].
      split; [reflexivity|]. split; [apply prefix_cons, prefix_nil|].
      split; [reflexivity|]. split; [exact Hreq|]. split.
      { intros _. split; discriminate. }
      split; [lia|]. split; [lia|]. intros [H|H]; discriminate.
    + destruct (Z.eqb_spec attempt max_retries) as [Heq|Hne].
      * cbn zeta. exists [attempt]. cbn [ended called backoff_slept length last].
        split; [reflexivity|]. split; [apply prefix_cons, prefix_nil|].
        split; [reflexivity|]. split; [exact Heq|]. split; [exact Hreq|]. lia.
      * destruct (get_backoff source rl1) as [backoff rl2].
        destruct (wait_after_failure backoff) as [delay backoff'].
        specialize (IH (set_backoff source backoff' rl2) (called0 ++ [attempt])
                       (slept0 ++ [delay])).
        cbn zeta in IH |- *. destruct IH as (done & Hcalled & Hprefix & Hend).
        exists (attempt :: done). rewrite Hcalled, <- app_assoc.
        split; [reflexivity|]. split; [now apply prefix_cons|].
        rewrite length_app in Hend. cbn [length] in Hend |- *.
        destruct (ended _) as [a st|a| |]; [| | |exact I].
        -- destruct Hend as (Hlast & Hres & Hcode & Hlo & Hhi & Hall).
           split; [now rewrite last_cons, Hlast|]. split; [exact Hres|].
           split; [exact Hcode|]. split; [lia|]. split; [lia|].
           intros Hst. specialize (Hall Hst). lia.
        -- destruct Hend as (Hlast & Hmax & Hres & Hlen).
           split; [now rewrite last_cons, Hlast|]. split; [exact Hmax|].
           split; [exact Hres|]. lia.
        -- destruct Hend as (-> & Hnot & Hlen). split; [reflexivity|]. split; [|lia].
           intros a Ha. apply elem_of_cons in Ha as [->|Ha]; [exact Hne|now apply Hnot].
Qed.

Lemma prefix_seqZ_last (done : list Z) (n a : Z) :
  done `prefix_of` seqZ 0 n -> last done = Some a ->
  Z.of_nat (length done) = a + 1 /\ 0 <= a < n.
Proof.
  intros [rest Hrest] Hlast. rewrite last_lookup in Hlast.
  assert (Hlook : seqZ 0 n !! pred (length done) = Some a).
  { rewrite Hrest. now apply lookup_app_l_Some. }
  apply lookup_seqZ in Hlook as [-> Hlt].
  apply lookup_lt_Some in Hlast. lia.
Qed.

(** X11.  [rate_limited_request] calls [request_func] for the attempts
    0, 1, 2, ... in order and at most [max_retries + 1] times.  With a
    negative [max_retries] it makes no call and returns [None]; otherwise it
    never falls out of its loop.  A result is returned from the attempt that
    produced it, and a 429 or 503 response only from the last attempt; an
    exception of [request_func] is re-raised only from the last attempt.
    Every attempt but the one that ends the call is followed by one backoff
    sleep, and a 429 or 503 response is slept on before it is returned, even
    when no attempt is left. *)
Theorem rate_limited_request_attempts (source : string)
    (request_func : Z -> attempt_outcome) (max_retries : Z)
    (clock : Z -> float * float * float) (rl : RateLimiter) :
  let r := rate_limited_request source request_func max_retries clock rl in
  called r `prefix_of` seqZ 0 (max_retries + 1)
  /\ Z.of_nat (length (called r)) <= Z.max 0 (max_retries + 1)
  /\ (max_retries < 0 -> ended r = ReturnsNone /\ called r = [])
  /\ (0 <= max_retries -> ended r <> ReturnsNone)
  /\ (forall a st, ended r = ReturnsResult a st ->
        request_func a = Result st
        /\ Z.of_nat (length (called r)) = a + 1
        /\ (st = Some 429 \/ st = Some 503 ->
            a = max_retries /\ length (backoff_slept r) = length (called r)))
  /\ (forall a, ended r = Reraises a ->
        request_func a = RaisesException
        /\ a = max_retries
        /\ Z.of_nat (length (called r)) = max_retries + 1
        /\ Z.of_nat (length (backoff_slept r)) = max_retries).
Proof.
  intros r. subst r. unfold rate_limited_request.
  destruct (attempts_spec source max_retries request_func clock
              (seqZ 0 (max_retries + 1)) rl [] []) as (done & Hcalled & Hprefix & Hend).
  cbn zeta in Hcalled, Hend. cbn [app length Nat.add] in Hcalled, Hend.
  set (r := attempts _ _ _ _ _ _ _ _) in *. subst done.
  split; [exact Hprefix|].
  assert (Hlen : Z.of_nat (length (called r)) <= Z.max 0 (max_retries + 1)).
  { apply prefix_length in Hprefix. rewrite length_seqZ in Hprefix. lia. }
  split; [exact Hlen|]. split; [|split; [|split]].
  - intros Hneg. assert (Hnil : called r = []).
    { destruct (called r); [reflexivity|]. cbn [length] in Hlen. lia. }
    split; [|exact Hnil].
    subst r. rewrite seqZ_nil by lia. reflexivity.
  - intros Hpos Hnone. rewrite Hnone in Hend. destruct Hend as (_ & Hnot & _).
    apply (Hnot max_retries); [|reflexivity]. apply elem_of_seqZ. lia.
  - intros a st Ha. rewrite Ha in Hend.
    destruct Hend as (Hlast & Hres & Hcode & _ & _ & Hall).
    destruct (prefix_seqZ_last _ _ a Hprefix Hlast) as [Hn Hrange].
    split; [exact Hres|]. split; [exact Hn|]. intros Hst. split; [|now apply Hall].
    destruct (decide (a < max_retries)) as [Hlt|Hge]; [|lia].
    destruct (Hcode Hlt) as [H1 H2]. destruct Hst; contradiction.
  - intros a Ha. rewrite Ha in Hend. destruct Hend as (Hlast & -> & Hres & Hslept).
    destruct (prefix_seqZ_last _ _ max_retries Hprefix Hlast) as [Hn Hrange].
    split; [exact Hres|]. split; [reflexivity|]. split; [exact Hn|]. lia.
Qed.

End LimiterCalls.

(** ** Waiting on the limiter *)

Section WaitSync.
Import PyFloat RateLimit Limiter.
Local Open Scope Q_scope.






End WaitSync.


(** ** Nested sitemaps *)

Section SitemapCrawl.
Import Sitemap.

Variable _fetch : string -> option string.
Variable _parse_sitemap_xml : string -> list string * list string.

Lemma fold_nested (f g : string -> option crawl) (bound : nat)
    (nested_sitemaps : list string) :
  (forall nested, exists sub,
      f nested = Some sub /\ g nested = Some sub /\ (length (fetched sub) <= bound)%nat) ->
  forall acc : crawl,
  exists c,
    foldl (fun acc nested =>
             acc ← acc; sub ← f nested;
             Some (mkCrawl (page_urls acc ++ page_urls sub) (fetched acc ++ fetched sub)))
          (Some acc) nested_sitemaps = Some c
    /\ foldl (fun acc nested =>
                acc ← acc; sub ← g nested;
                Some (mkCrawl (page_urls acc ++ page_urls sub) (fetched acc ++ fetched sub)))
             (Some acc) nested_sitemaps = Some c
    /\ (length (fetched c)
        <= length (fetched acc) + length nested_sitemaps * bound)%nat.
Proof.
  intros Hsub. induction nested_sitemaps as [|nested rest IH]; intros acc; cbn [foldl].
  - exists acc. cbn [length]. repeat split; lia.
  - destruct (Hsub nested) as (sub & -> & -> & Hlen). cbn [mbind option_bind].
    destruct (IH (mkCrawl (page_urls acc ++ page_urls sub) (fetched acc ++ fetched sub)))
      as (c & -> & -> & Hc).
    exists c. split; [reflexivity|]. split; [reflexivity|].
    cbn [fetched length] in Hc |- *. rewrite length_app in Hc. lia.
Qed.

Lemma crawl_sitemap_levels (levels : nat) :
  forall (fuel : nat) (sitemap_url : string) (depth : Z),
    levels_left depth = levels -> (levels <= fuel)%nat ->
    exists c,
      crawl_sitemap _fetch _parse_sitemap_xml fuel sitemap_url depth = Some c
      /\ crawl_sitemap _fetch _parse_sitemap_xml levels sitemap_url depth = Some c
      /\ (length (fetched c) <= fetch_bound levels)%nat.
Proof.
  unfold levels_left.
  induction levels as [|levels IH]; intros fuel sitemap_url depth Hlevels Hfuel.
  - assert (Hdeep : 2 < depth) by lia. apply Z.ltb_lt in Hdeep.
    exists (mkCrawl [] []). destruct fuel; cbn [crawl_sitemap]; rewrite Hdeep;
      repeat split; cbn; lia.
  - destruct fuel as [|fuel]; [lia|].
    assert (Hshallow : (2 <? depth) = false) by (apply Z.ltb_ge; lia).
    cbn [crawl_sitemap]. rewrite Hshallow.
    destruct (_fetch sitemap_url) as [[|a content]|].
    + eexists. split; [reflexivity|]. split; [reflexivity|]. cbn. lia.
    + destruct (_parse_sitemap_xml (String a content)) as [pages nested_sitemaps].
      destruct (fold_nested
                  (fun nested => crawl_sitemap _fetch _parse_sitemap_xml fuel nested (depth + 1))
                  (fun nested => crawl_sitemap _fetch _parse_sitemap_xml levels nested (depth + 1))
                  (fetch_bound levels) (take 5 nested_sitemaps))
        with (acc := mkCrawl pages [sitemap_url]) as (c & Hf & Hg & Hlen).
      { intros nested. apply IH; lia. }
      exists c. split; [exact Hf|]. split; [exact Hg|].
      cbn [fetched length fetch_bound] in Hlen |- *.
      assert (Htake : (length (take 5 nested_sitemaps) <= 5)%nat)
        by (rewrite length_take; apply Nat.le_min_l).
      assert (length (take 5 nested_sitemaps) * fetch_bound levels
              <= 5 * fetch_bound levels)%nat by (apply Nat.mul_le_mono_r; exact Htake).
      lia.
    + eexists. split; [reflexivity|]. split; [reflexivity|]. cbn. lia.
Qed.

(** X14.  [crawl_sitemap] started at [depth] ends, whatever the sitemaps
    say, also when a sitemap index lists itself: three levels of calls
    minus [depth] are enough, more fuel changes nothing, and the crawl
    fetches at most 1 + 5 + 25 = 31 sitemaps from depth 0, 6 from depth 1,
    one from depth 2 and none from any greater depth. *)
Theorem crawl_sitemap_bounded (fuel : nat) (sitemap_url : string) (depth : Z) :
  (levels_left depth <= fuel)%nat ->
  exists c,
    crawl_sitemap _fetch _parse_sitemap_xml fuel sitemap_url depth = Some c
    /\ crawl_sitemap _fetch _parse_sitemap_xml (levels_left depth) sitemap_url depth
       = Some c
    /\ (length (fetched c) <= fetch_bound (levels_left depth))%nat
    /\ (0 <= depth -> (length (fetched c) <= 31)%nat)
    /\ (1 <= depth -> (length (fetched c) <= 6)%nat)
    /\ (2 <= depth -> (length (fetched c) <= 1)%nat)
    /\ (3 <= depth -> c = mkCrawl [] []).
Proof.
  intros Hfuel.
  destruct (crawl_sitemap_levels (levels_left depth) fuel sitemap_url depth eq_refl Hfuel)
    as (c & Hc & Hl & Hlen).
  exists c. split; [exact Hc|]. split; [exact Hl|]. split; [exact Hlen|].
  assert (Hmono : forall a b, (a <= b)%nat -> (fetch_bound a <= fetch_bound b)%nat).
  { intros a b Hab. induction Hab as [|b Hab IH]; [lia|]. cbn [fetch_bound]. lia. }
  split; [|split; [|split]]; intros Hd.
  - pose proof (Hmono (levels_left depth) 3%nat ltac:(unfold levels_left; lia)) as H.
    cbn in H. lia.
  - pose proof (Hmono (levels_left depth) 2%nat ltac:(unfold levels_left; lia)) as H.
    cbn in H. lia.
  - pose proof (Hmono (levels_left depth) 1%nat ltac:(unfold levels_left; lia)) as H.
    cbn in H. lia.
  - destruct fuel; cbn [crawl_sitemap] in Hc;
      rewrite (proj2 (Z.ltb_lt 2 depth)) in Hc by lia; congruence.
Qed.

End SitemapCrawl.

(** A sitemap index that lists itself seven times. *)
Lemma crawl_sitemap_bounded_witness :
  let _fetch := fun _ : string => Some "<sitemapindex/>" in
  let _parse_sitemap_xml :=
    fun _ : string => (["https://a.example/page"], replicate 7 "https://a.example/sitemap.xml") in
  exists c,
    Sitemap.crawl_sitemap _fetch _parse_sitemap_xml 5 "https://a.example/sitemap.xml" 0 = Some c
    /\ Sitemap.crawl_sitemap _fetch _parse_sitemap_xml (Sitemap.levels_left 0)
         "https://a.example/sitemap.xml" 0 = Some c
    /\ (length (Sitemap.fetched c) <= Sitemap.fetch_bound (Sitemap.levels_left 0))%nat
    /\ (0 <= 0 -> (length (Sitemap.fetched c) <= 31)%nat)
    /\ (1 <= 0 -> (length (Sitemap.fetched c) <= 6)%nat)
    /\ (2 <= 0 -> (length (Sitemap.fetched c) <= 1)%nat)
    /\ (3 <= 0 -> c = Sitemap.mkCrawl [] []).
Proof.
  intros _fetch _parse_sitemap_xml.
  apply (crawl_sitemap_bounded _fetch _parse_sitemap_xml 5 "https://a.example/sitemap.xml" 0).
  vm_compute. lia.
Defined.

(** ** Discovery from the seed pages *)

Section SeedDiscovery.
Import PyStr Seeds UrlPath SeedSource.

Variable urlparse : string -> option ParseResult.
Variable fetch_page : string -> option string.
Variable _extract_aasx_links : string -> string -> list string.
Variable allowed_domains : gset string.
Variable max_results : Z.

Lemma has_slash_rsplit_last (path : string) : has_slash (rsplit_last path) = false.
Proof.
  induction path as [|c rest IH]; cbn [rsplit_last]; [reflexivity|].
  destruct (has_slash rest) eqn:Hrest; [exact IH|].
  destruct (Ascii.eqb c "/") eqn:Hc; [exact Hrest|].
  cbn [has_slash]. now rewrite Hc, Hrest.
Qed.

Lemma rsplit_last_suffix (path : string) :
  has_slash path = true -> exists dir, path = dir +:+ "/" +:+ rsplit_last path.
Proof.
  induction path as [|c rest IH]; cbn [has_slash rsplit_last]; [discriminate|].
  destruct (has_slash rest) eqn:Hrest.
  - intros _. destruct (IH eq_refl) as [dir Hdir]. exists (String c dir).
    rewrite append_cons. now f_equal.
  - rewrite orb_false_r. intros Hc. rewrite Hc. apply Ascii.eqb_eq in Hc as ->.
    exists "". reflexivity.
Qed.

(** A file name taken from a URL is never empty and has no slash in it: it
    is the last segment of the path. *)
Lemma get_filename_spec (url name : string) :
  _get_filename_from_url urlparse url = Some (Some name) ->
  name <> "" /\ has_slash name = false
  /\ exists parsed dir, urlparse url = Some parsed /\ path parsed = dir +:+ "/" +:+ name.
Proof.
  unfold _get_filename_from_url. destruct (urlparse url) as [parsed|]; [|discriminate].
  cbn [mbind option_bind]. destruct (has_slash (path parsed)) eqn:Hslash; [|discriminate].
  pose proof (has_slash_rsplit_last (path parsed)) as Hlast.
  destruct (rsplit_last_suffix _ Hslash) as [dir Hdir].
  destruct (rsplit_last (path parsed)) as [|a s]; [discriminate|].
  cbn [or_None]. intros [= <-]. split; [discriminate|]. split; [exact Hlast|].
  now exists parsed, dir.
Qed.

Lemma crawl_links_spec (seed_url : string) (links : list string) :
  forall cs,
    crawl_links urlparse allowed_domains seed_url links = Some cs ->
    Forall (from_seed urlparse allowed_domains seed_url) cs
    /\ SeedCandidate.url <$> cs
       = List.filter (fun link =>
                        bool_decide (_is_domain_allowed (fun url => netloc <$> urlparse url)
                                       link allowed_domains = Some true)) links.
Proof.
  induction links as [|link rest IH]; intros cs; cbn [crawl_links List.filter].
  - intros [= <-]. split; [constructor|reflexivity].
  - destruct (_is_domain_allowed _ link allowed_domains) as [[|]|] eqn:Hallowed;
      cbn [mbind option_bind negb]; [| |discriminate].
    + destruct (_get_filename_from_url urlparse link) as [filename|] eqn:Hname;
        cbn [mbind option_bind]; [|discriminate].
      destruct (crawl_links urlparse allowed_domains seed_url rest) as [cs'|];
        cbn [mbind option_bind]; [|discriminate].
      intros [= <-]. destruct (IH cs' eq_refl) as [Hall Hurls].
      rewrite bool_decide_eq_true_2 by reflexivity. split.
      * constructor; [|exact Hall]. split; [reflexivity|]. split; [exact Hallowed|].
        cbn [SeedCandidate.filename]. intros name ->.
        destruct (get_filename_spec link name Hname) as (Hne & Hslash & _). now split.
      * cbn [fmap list_fmap SeedCandidate.url]. now rewrite <- Hurls.
    + rewrite bool_decide_eq_false_2 by discriminate. apply IH.
Qed.

Lemma crawl_seed_spec (seed : SeedConfig.SeedConfig) (cs : list SeedCandidate.SeedCandidate) :
  crawl_seed urlparse fetch_page _extract_aasx_links allowed_domains seed = Some cs ->
  Forall (from_seed urlparse allowed_domains (SeedConfig.url seed)) cs.
Proof.
  unfold crawl_seed. destruct (fetch_page (SeedConfig.url seed)) as [[|a html]|].
  - intros [= <-]. constructor.
  - intros H. now apply crawl_links_spec in H as [H _].
  - intros [= <-]. constructor.
Qed.

Lemma discover_loop_spec (seeds : list SeedConfig.SeedConfig) :
  forall candidates crawled candidates' crawled',
    discover_loop urlparse fetch_page _extract_aasx_links allowed_domains max_results
      seeds candidates crawled = Some (candidates', crawled') ->
    exists done found,
      crawled' = crawled ++ done
      /\ done `prefix_of` seeds
      /\ Forall2 (fun seed cs =>
                    crawl_seed urlparse fetch_page _extract_aasx_links allowed_domains seed
                    = Some cs) done found
      /\ candidates' = candidates ++ concat found
      /\ (forall n seed, done !! n = Some seed ->
            Z.of_nat (length (candidates ++ concat (take n found))) < max_results)
      /\ (done <> seeds -> max_results <= Z.of_nat (length candidates')).
Proof.
  induction seeds as [|seed rest IH]; intros candidates crawled candidates' crawled';
    cbn [discover_loop].
  - intros [= <- <-]. exists [], []. rewrite !app_nil_r.
    split; [reflexivity|]. split; [reflexivity|]. split; [constructor|].
    split; [reflexivity|]. split; [|congruence]. intros n s Hn. discriminate.
  - destruct (Z.leb_spec max_results (Z.of_nat (length candidates))) as [Hfull|Hroom].
    + intros [= <- <-]. exists [], []. rewrite !app_nil_r.
      split; [reflexivity|]. split; [apply prefix_nil|]. split; [constructor|].
      split; [reflexivity|]. split; [|intros _; exact Hfull].
      intros n s Hn. discriminate.
    + destruct (crawl_seed _ _ _ _ seed) as [cs|] eqn:Hcs; cbn [mbind option_bind];
        [|discriminate].
      intros Hloop. apply IH in Hloop
        as (done & found & -> & Hprefix & Hfound & -> & Hearly & Hstop).
      exists (seed :: done), (cs :: found). rewrite <- !app_assoc.
      split; [reflexivity|]. split; [now apply prefix_cons|].
      split; [now constructor|]. split; [reflexivity|]. split.
      * intros [|n] s Hn; cbn [take concat].
        -- now rewrite app_nil_r.
        -- cbn in Hn. specialize (Hearly n s Hn). now rewrite <- app_assoc in Hearly.
      * intros Hne. cbn [concat]. rewrite app_assoc. apply Hstop. congruence.
Qed.

(** X12.  [SeedSource.discover] returns at most [max_results] candidates
    (none when [max_results] is zero or negative, and then no seed is
    crawled): they are the first [max_results] of the candidates found on
    the seeds it crawled, in order.  It crawls the seeds in order and goes to
    a seed only while the seeds before it have given fewer than
    [max_results] candidates.  Every candidate returned has the URL of a
    crawled seed as its [source_ref], a URL that passes the domain allowlist,
    and a file name that, when there is one, is not empty and has no slash
    in it. *)
Theorem seed_discover_capped (seeds crawled : list SeedConfig.SeedConfig)
    (result : list SeedCandidate.SeedCandidate) :
  discover urlparse fetch_page _extract_aasx_links allowed_domains max_results seeds
  = Some (result, crawled) ->
  Z.of_nat (length result) <= Z.max 0 max_results
  /\ crawled `prefix_of` seeds
  /\ (max_results <= 0 -> crawled = [] /\ result = [])
  /\ (exists found,
        Forall2 (fun seed cs =>
                   crawl_seed urlparse fetch_page _extract_aasx_links allowed_domains seed
                   = Some cs) crawled found
        /\ result = take (Z.to_nat max_results) (concat found)
        /\ (forall n seed, crawled !! n = Some seed ->
              Z.of_nat (length (concat (take n found))) < max_results)
        /\ (crawled <> seeds -> max_results <= Z.of_nat (length (concat found))))
  /\ (forall c, c ∈ result ->
        exists seed, seed ∈ crawled
                    /\ from_seed urlparse allowed_domains (SeedConfig.url seed) c).
Proof.
  unfold discover.
  destruct (discover_loop _ _ _ _ _ seeds [] []) as [[candidates crawled0]|] eqn:Hloop;
    cbn [mbind option_bind]; [|discriminate].
  intros [= <- <-].
  apply discover_loop_spec in Hloop
    as (done & found & -> & Hprefix & Hfound & -> & Hearly & Hstop).
  cbn [app] in *.
  assert (Hnone : max_results <= 0 -> done = []).
  { intros Hneg. destruct done as [|seed done]; [reflexivity|].
    specialize (Hearly 0%nat seed eq_refl). cbn in Hearly. lia. }
  assert (Hslice : slice_to max_results (concat found)
                   = take (Z.to_nat max_results) (concat found)).
  { unfold slice_to. destruct (Z.leb_spec 0 max_results) as [Hpos|Hneg]; [reflexivity|].
    rewrite (Hnone ltac:(lia)) in Hfound. apply Forall2_nil_inv_l in Hfound as ->.
    cbn [concat]. now rewrite !take_nil. }
  rewrite Hslice. split; [|split; [exact Hprefix|split; [|split]]].
  - rewrite length_take. lia.
  - intros Hneg. split; [now apply Hnone|].
    replace (Z.to_nat max_results) with 0%nat by lia. reflexivity.
  - exists found. split; [exact Hfound|]. split; [reflexivity|].
    split; [exact Hearly|exact Hstop].
  - intros c Hc. apply elem_of_take in Hc as (i & Hc & _).
    apply list_elem_of_lookup_2 in Hc.
    apply list_elem_of_In, in_concat in Hc as (cs & Hcs & Hc).
    apply list_elem_of_In in Hcs, Hc.
    apply list_elem_of_lookup_1 in Hcs as [n Hn].
    destruct (Forall2_lookup_r _ _ _ _ _ Hfound Hn) as (seed & Hseed & Hcrawl).
    exists seed. split; [now apply list_elem_of_lookup_2 in Hseed|].
    apply crawl_seed_spec in Hcrawl. rewrite Forall_forall in Hcrawl. now apply Hcrawl.
Qed.

End SeedDiscovery.

(** Two seed pages with the same two links, and room for one candidate. *)
Lemma seed_discover_capped_witness :
  let urlparse := fun _ : string =>
    Some (UrlPath.mkParseResult "a.example" "/files/x.aasx") in
  let fetch_page := fun _ : string => Some "<html>" in
  let _extract_aasx_links := fun _ _ : string =>
    ["https://a.example/files/x.aasx"; "https://a.example/files/y.aasx"] in
  let one := SeedConfig.mk "https://a.example/one" "one" "seed" None in
  let two := SeedConfig.mk "https://a.example/two" "two" "seed" None in
  let c := SeedCandidate.mk "https://a.example/files/x.aasx" "https://a.example/one"
             (Some "x.aasx") in
  SeedSource.discover urlparse fetch_page _extract_aasx_links ∅ 1 [one; two]
  = Some ([c], [one])
  /\ Z.of_nat (length [c]) <= Z.max 0 1
  /\ [one] `prefix_of` [one; two].
Proof.
  intros urlparse fetch_page _extract_aasx_links one two c.
  assert (H : SeedSource.discover urlparse fetch_page _extract_aasx_links ∅ 1 [one; two]
              = Some ([c], [one])) by (vm_compute; reflexivity).
  split; [exact H|].
  destruct (seed_discover_capped urlparse fetch_page _extract_aasx_links ∅ 1
              [one; two] [one] [c] H) as (Hlen & Hprefix & _).
  split; [exact Hlen|exact Hprefix].
Defined.

(** ** Discovery from the Common Crawl index *)

Section CommonCrawlSearch.
Import PyStr Seeds UrlPath Storage CommonCrawl.

Variable urlparse : string -> option ParseResult.
Variable query_cdx : string -> Z -> option string
                     -> list (list (string * string)) * option string.
Variable allowed_domains : gset string.
Variable max_results : Z.

Lemma track_domain_fields (d : string) (s : search) :
  candidates (track_domain d s) = candidates s
  /\ processed_urls (state (track_domain d s)) = processed_urls (state s)
  /\ last_cursor (state (track_domain d s)) = last_cursor (state s)
  /\ discovered_domains (state s) ⊆ discovered_domains (state (track_domain d s))
  /\ d ∈ discovered_domains (state (track_domain d s)).
Proof.
  unfold track_domain. destruct (decide (d ∈ discovered_domains (state s))) as [Hin|Hout].
  - repeat split; [reflexivity|exact Hin].
  - cbn. repeat split.
    + apply union_subseteq_r.
    + apply elem_of_union_l, elem_of_singleton. reflexivity.
Qed.

Lemma allowed_when_unrestricted (url : string) :
  allowed_domains = ∅ ->
  _is_domain_allowed (fun url => netloc <$> urlparse url) url allowed_domains = Some true.
Proof. intros ->. unfold _is_domain_allowed. now rewrite decide_True. Qed.

(** What the loop keeps true of the candidates it adds. *)
Lemma search_loop_spec (results : list (list (string * string))) :
  forall s s',
    search_loop urlparse allowed_domains max_results results s = Some s' ->
    exists added,
      candidates s' = candidates s ++ added
      /\ (added = []
          \/ Z.of_nat (length (candidates s'))
             <= Z.max (Z.of_nat (length (candidates s)) + 1) max_results)
      /\ NoDup (url <$> added)
      /\ (forall c, c ∈ added -> url c ∉ processed_urls (state s))
      /\ (forall u, u ∈ processed_urls (state s')
            <-> u ∈ (url <$> added) \/ u ∈ processed_urls (state s))
      /\ discovered_domains (state s) ⊆ discovered_domains (state s')
      /\ last_cursor (state s') = last_cursor (state s)
      /\ Forall (fun c =>
                   endswith (lower (url c)) ".aasx" = true
                   /\ source_ref c = "commoncrawl"
                   /\ _is_domain_allowed (fun url => netloc <$> urlparse url)
                        (url c) allowed_domains = Some true
                   /\ exists d, domain c = Some d
                        /\ _get_domain_from_url urlparse (url c) = Some d
                        /\ d ∈ discovered_domains (state s')) added.
Proof.
  induction results as [|record rest IH]; intros s s'; cbn [search_loop].
  - intros [= <-]. exists []. rewrite app_nil_r.
    split; [reflexivity|]. split; [now left|]. split; [constructor|].
    split; [intros c Hc; now apply elem_of_nil in Hc|]. split.
    { intros u. split; [now right|]. intros [Hu|Hu]; [now apply elem_of_nil in Hu|exact Hu]. }
    split; [reflexivity|]. split; [reflexivity|constructor].
  - set (u := default "" (dict_get "url" record)).
    destruct (decide (u ∈ processed_urls (state s))) as [Hseen|Hnew]; [apply IH|].
    destruct (endswith (lower u) ".aasx") eqn:Hext; cbn [negb]; [|apply IH].
    destruct (_get_domain_from_url urlparse u) as [d|] eqn:Hdom;
      cbn [mbind option_bind]; [|discriminate].
    destruct (track_domain_fields d s) as (Hc1 & Hp1 & Hl1 & Hd1 & Hin1).
    set (s1 := track_domain d s) in *.
    assert (Hallowed : forall b,
               (if decide (allowed_domains = ∅) then Some true
                else _is_domain_allowed (fun url => netloc <$> urlparse url)
                       u allowed_domains) = Some b ->
               _is_domain_allowed (fun url => netloc <$> urlparse url)
                 u allowed_domains = Some b).
    { intros b. destruct (decide (allowed_domains = ∅)) as [Hempty|_]; [|tauto].
      intros [= <-]. now apply allowed_when_unrestricted. }
    destruct (if decide (allowed_domains = ∅) then Some true else _) as [[|]|];
      cbn [mbind option_bind negb]; [| |discriminate].
    + specialize (Hallowed true eq_refl).
      destruct (_get_filename_from_url urlparse u) as [name|];
        cbn [mbind option_bind]; [|discriminate].
      set (c := mkCandidate u "commoncrawl" (Some d) name (dict_get "timestamp" record)).
      set (s2 := add_candidate c s1).
      assert (Hc2 : candidates s2 = candidates s ++ [c])
        by (subst s2; cbn [add_candidate candidates]; now rewrite Hc1).
      assert (Hp2 : processed_urls (state s2) = {[u]} ∪ processed_urls (state s))
        by (subst s2; cbn [add_candidate state processed_urls]; now rewrite Hp1).
      assert (Hd2 : discovered_domains (state s2) = discovered_domains (state s1))
        by reflexivity.
      assert (Hl2 : last_cursor (state s2) = last_cursor (state s))
        by (subst s2; cbn [add_candidate state last_cursor]; exact Hl1).
      assert (Hgood : forall s', discovered_domains (state s2) ⊆ discovered_domains (state s') ->
                endswith (lower (url c)) ".aasx" = true
                /\ source_ref c = "commoncrawl"
                /\ _is_domain_allowed (fun url => netloc <$> urlparse url)
                     (url c) allowed_domains = Some true
                /\ exists d, domain c = Some d
                     /\ _get_domain_from_url urlparse (url c) = Some d
                     /\ d ∈ discovered_domains (state s')).
      { intros s0 Hsub. split; [exact Hext|]. split; [reflexivity|].
        split; [exact Hallowed|]. exists d. split; [reflexivity|].
        split; [exact Hdom|]. apply Hsub. rewrite Hd2. exact Hin1. }
      destruct (Z.leb_spec max_results (Z.of_nat (length (candidates s2)))) as [Hfull|Hroom].
      * intros [= <-]. exists [c]. split; [exact Hc2|]. split.
        { right. rewrite Hc2, length_app. cbn [length]. lia. }
        split; [apply NoDup_singleton|]. split.
        { intros c' Hc'. apply list_elem_of_singleton in Hc' as ->. exact Hnew. }
        split.
        { intros x. rewrite Hp2, elem_of_union, elem_of_singleton.
          cbn [fmap list_fmap]. rewrite list_elem_of_singleton. reflexivity. }
        split; [rewrite Hd2; exact Hd1|]. split; [exact Hl2|].
        constructor; [|constructor]. now apply Hgood.
      * intros Hloop. apply IH in Hloop
          as (added & Hcs & Hlen & Hnd & Hfresh & Hproc & Hdisc & Hcur & Hall).
        exists (c :: added). split; [rewrite Hcs, Hc2, <- app_assoc; reflexivity|].
        split.
        { right. rewrite Hc2, length_app in Hroom. cbn [length] in Hroom.
          destruct Hlen as [->|Hlen].
          - rewrite Hcs, app_nil_r, Hc2, length_app. cbn [length]. lia.
          - rewrite Hc2, length_app in Hlen. cbn [length] in Hlen. lia. }
        split.
        { cbn [fmap list_fmap]. constructor; [|exact Hnd].
          intros Hin. apply list_elem_of_fmap in Hin as (c' & Hu & Hc').
          apply (Hfresh c' Hc'). rewrite Hp2, <- Hu.
          apply elem_of_union_l, elem_of_singleton. reflexivity. }
        split.
        { intros c' Hc'. apply elem_of_cons in Hc' as [->|Hc']; [exact Hnew|].
          intros Hin. apply (Hfresh c' Hc'). rewrite Hp2. now apply elem_of_union_r. }
        split.
        { intros x. rewrite Hproc, Hp2, elem_of_union, elem_of_singleton.
          cbn [fmap list_fmap]. rewrite elem_of_cons. cbn [url c]. tauto. }
        split; [etransitivity; [exact Hd1|]; rewrite <- Hd2; exact Hdisc|].
        split; [congruence|].
        constructor; [now apply Hgood|exact Hall].
    + intros Hloop. apply IH in Hloop
        as (added & Hcs & Hlen & Hnd & Hfresh & Hproc & Hdisc & Hcur & Hall).
      exists added. rewrite Hc1, Hp1 in *.
      split; [exact Hcs|]. split; [exact Hlen|]. split; [exact Hnd|].
      split; [exact Hfresh|]. split; [exact Hproc|].
      split; [etransitivity; eassumption|]. split; [congruence|exact Hall].
Qed.

(** X13.  [search_aasx_urls] returns at most [max_results] candidates, and
    one candidate even when [max_results] is zero or negative, since it
    counts only after it has added one.  The URLs returned are pairwise
    different, were not among the processed URLs before, and make up,
    together with those, the processed URLs afterwards.  Each of them ends
    in [.aasx] whatever the case of the letters and passes the domain
    allowlist, and its domain is among the discovered domains, which only
    grow.  The cursor of the state becomes the one the index answered with. *)
Theorem search_aasx_urls_spec (state0 state' : CommonCrawlState)
    (found : list CommonCrawlCandidate) :
  search_aasx_urls urlparse query_cdx allowed_domains max_results state0
  = Some (found, state') ->
  Z.of_nat (length found) <= Z.max 1 max_results
  /\ NoDup (url <$> found)
  /\ (forall c, c ∈ found -> url c ∉ processed_urls state0)
  /\ (forall u, u ∈ processed_urls state'
        <-> u ∈ (url <$> found) \/ u ∈ processed_urls state0)
  /\ discovered_domains state0 ⊆ discovered_domains state'
  /\ last_cursor state'
     = (query_cdx "*.aasx" (Z.min (max_results * 2) 200) (last_cursor state0)).2
  /\ Forall (fun c =>
               endswith (lower (url c)) ".aasx" = true
               /\ source_ref c = "commoncrawl"
               /\ _is_domain_allowed (fun url => netloc <$> urlparse url)
                    (url c) allowed_domains = Some true
               /\ exists d, domain c = Some d
                    /\ _get_domain_from_url urlparse (url c) = Some d
                    /\ d ∈ discovered_domains state') found.
Proof.
  unfold search_aasx_urls.
  destruct (query_cdx "*.aasx" _ (last_cursor state0)) as [results next_cursor].
  destruct (search_loop _ _ _ results _) as [s|] eqn:Hloop; cbn [mbind option_bind];
    [|discriminate].
  intros [= <- <-].
  apply search_loop_spec in Hloop
    as (added & Hcs & Hlen & Hnd & Hfresh & Hproc & Hdisc & Hcur & Hall).
  cbn [candidates state app length] in *. rewrite Hcs.
  cbn [processed_urls discovered_domains last_cursor snd].
  split.
  { destruct Hlen as [->|Hlen]; [cbn; lia|]. rewrite Hcs in Hlen. lia. }
  split; [exact Hnd|]. split; [exact Hfresh|]. split; [exact Hproc|].
  split; [exact Hdisc|]. split; [reflexivity|exact Hall].
Qed.

End CommonCrawlSearch.

(** An index that answers with the same URL twice, asked for no result. *)
Lemma search_aasx_urls_spec_witness :
  let urlparse := fun _ : string =>
    Some (UrlPath.mkParseResult "A.example" "/files/x.AASX") in
  let query_cdx := fun (_ : string) (_ : Z) (_ : option string) =>
    ([[("url", "https://A.example/files/x.AASX"); ("timestamp", "2024")];
      [("url", "https://A.example/files/x.AASX")]], Some "next") in
  let c := CommonCrawl.mkCandidate "https://A.example/files/x.AASX" "commoncrawl"
             (Some "a.example") (Some "x.AASX") (Some "2024") in
  let state' := CommonCrawl.mkState (Some "next") {["a.example"]}
                  {["https://A.example/files/x.AASX"]} in
  CommonCrawl.search_aasx_urls urlparse query_cdx ∅ 0 (CommonCrawl.mkState None ∅ ∅)
  = Some ([c], state')
  /\ Z.of_nat (length [c]) <= Z.max 1 0
  /\ NoDup (CommonCrawl.url <$> [c]).
Proof.
  intros urlparse query_cdx c state'.
  assert (H : CommonCrawl.search_aasx_urls urlparse query_cdx ∅ 0
                (CommonCrawl.mkState None ∅ ∅) = Some ([c], state'))
    by (vm_compute; reflexivity).
  split; [exact H|].
  destruct (search_aasx_urls_spec urlparse query_cdx ∅ 0 _ _ _ H) as (Hlen & Hnd & _).
  split; [exact Hlen|exact Hnd].
Defined.

(** ** GitHub URLs *)

Section GitHubUrls.
Import Regex GitHub.

Lemma strip_prefix_spec (text s s' : string) :
  strip_prefix text s = Some s' <-> s = text +:+ s'.
Proof.
  revert s. induction text as [|a text IH]; intros s; cbn [strip_prefix].
  - rewrite append_nil_l. split; [intros [= ->]|intros ->]; reflexivity.
  - rewrite append_cons. destruct s as [|b s]; [split; discriminate|].
    destruct (Ascii.eqb_spec a b) as [->|Hne].
    + rewrite IH. split; [intros ->; reflexivity|intros [= ->]; reflexivity].
    + split; [discriminate|]. intros [= <- _]. contradiction.
Qed.

Lemma greedy_plus_sound {R} (class : ascii -> bool) (k : string -> string -> option R)
    (s : string) :
  forall captured r,
    greedy_plus class s captured k = Some r ->
    exists run rest,
      s = run +:+ rest /\ run <> "" /\ all_of class run = true
      /\ k (captured +:+ run) rest = Some r.
Proof.
  induction s as [|c s IH]; intros captured r; cbn [greedy_plus]; [discriminate|].
  destruct (class c) eqn:Hc; [|discriminate].
  destruct (greedy_plus class s (captured +:+ String c "") k) as [r'|] eqn:Hlong.
  - intros [= ->]. apply IH in Hlong as (run & rest & -> & _ & Hall & Hk).
    exists (String c run), rest. rewrite append_cons. split; [reflexivity|].
    split; [discriminate|]. split; [cbn [all_of]; now rewrite Hc, Hall|].
    now rewrite append_assoc in Hk.
  - intros Hk. exists (String c ""), s. split; [reflexivity|].
    split; [discriminate|]. split; [cbn [all_of]; now rewrite Hc|exact Hk].
Qed.

Lemma greedy_plus_longest {R} (class : ascii -> bool) (k : string -> string -> option R)
    (run rest : string) :
  forall captured r,
    run <> "" -> all_of class run = true -> stops class rest ->
    k (captured +:+ run) rest = Some r ->
    greedy_plus class (run +:+ rest) captured k = Some r.
Proof.
  induction run as [|c run IH]; intros captured r Hne Hall Hstop Hk; [contradiction|].
  cbn [all_of] in Hall. apply andb_true_iff in Hall as [Hc Hall].
  rewrite append_cons. cbn [greedy_plus]. rewrite Hc.
  destruct run as [|c' run].
  - rewrite append_nil_l.
    assert (Hnone : greedy_plus class rest (captured +:+ String c "") k = None).
    { destruct rest as [|c0 rest]; [reflexivity|]. cbn [greedy_plus].
      cbn [stops] in Hstop. now rewrite Hstop. }
    rewrite Hnone. exact Hk.
  - rewrite (IH (captured +:+ String c "") r); [reflexivity|discriminate|exact Hall|exact Hstop|].
    now rewrite append_assoc.
Qed.

Lemma re_match_sound (pattern : list item) :
  forall s groups,
    re_match pattern s = Some groups -> exists rest, matches pattern s groups rest.
Proof.
  induction pattern as [|[text|class] pattern IH]; intros s groups; cbn [re_match].
  - intros [= <-]. exists s. constructor.
  - destruct (strip_prefix text s) as [s'|] eqn:Hs; [|discriminate].
    apply strip_prefix_spec in Hs as ->. intros H. apply IH in H as [rest H].
    exists rest. now constructor.
  - intros H. apply greedy_plus_sound in H as (run & s' & -> & Hne & Hall & Hk).
    destruct (re_match pattern s') as [groups'|] eqn:Hm; [|discriminate].
    injection Hk as <-. apply IH in Hm as [rest Hm].
    exists rest. rewrite append_nil_l. now constructor.
Qed.

Lemma re_match_lit (text : string) (pattern : list item) (s : string) :
  re_match (Lit text :: pattern) (text +:+ s) = re_match pattern s.
Proof. cbn [re_match]. now rewrite (proj2 (strip_prefix_spec text _ s) eq_refl). Qed.

Lemma re_match_group (class : ascii -> bool) (pattern : list item) (run s : string)
    (groups : list string) :
  run <> "" -> all_of class run = true -> stops class s ->
  re_match pattern s = Some groups ->
  re_match (Group class :: pattern) (run +:+ s) = Some (run :: groups).
Proof.
  intros Hne Hall Hstop Hm. cbn [re_match].
  apply greedy_plus_longest; [exact Hne|exact Hall|exact Hstop|].
  now rewrite append_nil_l, Hm.
Qed.

(** X16.  [_blob_to_raw_url] accepts exactly the URLs that start with
    [https://github.com/owner/repo/blob/ref/path], where owner, repo and ref
    are non-empty and free of slashes and the path is not empty, and moves
    those four parts, unchanged, behind [https://raw.githubusercontent.com/];
    the path may hold slashes and ends at the first line break or at the
    end of the URL.  On such a URL [_extract_repo_from_url] gives
    [owner/repo]. *)
Theorem blob_to_raw_url_spec (blob_url : string) :
  (forall raw,
     _blob_to_raw_url blob_url = Some raw ->
     exists owner repo ref path rest,
       blob_url = "https://github.com/" +:+ owner +:+ "/" +:+ repo +:+ "/blob/"
                    +:+ ref +:+ "/" +:+ path +:+ rest
       /\ raw = "https://raw.githubusercontent.com/" +:+ owner +:+ "/" +:+ repo
                  +:+ "/" +:+ ref +:+ "/" +:+ path
       /\ segment owner /\ segment repo /\ segment ref
       /\ path <> "" /\ all_of not_newline path = true)
  /\ (forall owner repo ref path rest,
        segment owner -> segment repo -> segment ref ->
        path <> "" -> all_of not_newline path = true -> stops not_newline rest ->
        blob_url = "https://github.com/" +:+ owner +:+ "/" +:+ repo +:+ "/blob/"
                     +:+ ref +:+ "/" +:+ path +:+ rest ->
        _blob_to_raw_url blob_url
        = Some ("https://raw.githubusercontent.com/" +:+ owner +:+ "/" +:+ repo
                  +:+ "/" +:+ ref +:+ "/" +:+ path)
        /\ _extract_repo_from_url blob_url = Some (owner +:+ "/" +:+ repo)).
Proof.
  split.
  - intros raw. unfold _blob_to_raw_url.
    destruct (re_match blob_pattern blob_url) as [groups|] eqn:Hm; [|discriminate].
    apply re_match_sound in Hm as [rest Hm]. unfold blob_pattern in Hm.
    inversion Hm as [|? ? s1 ? ? H1|]; subst; clear Hm.
    inversion H1 as [| |? ? owner s2 ? ? Ho1 Ho2 H2]; subst; clear H1.
    inversion H2 as [|? ? s3 ? ? H3|]; subst; clear H2.
    inversion H3 as [| |? ? repo s4 ? ? Hr1 Hr2 H4]; subst; clear H3.
    inversion H4 as [|? ? s5 ? ? H5|]; subst; clear H4.
    inversion H5 as [| |? ? ref s6 ? ? Hf1 Hf2 H6]; subst; clear H5.
    inversion H6 as [|? ? s7 ? ? H7|]; subst; clear H6.
    inversion H7 as [| |? ? path s8 ? ? Hp1 Hp2 H8]; subst; clear H7.
    inversion H8; subst; clear H8.
    intros [= <-]. exists owner, repo, ref, path, rest.
    split; [reflexivity|]. split; [reflexivity|]. now repeat split.
  - intros owner repo ref path rest [Ho1 Ho2] [Hr1 Hr2] [Hf1 Hf2] Hp1 Hp2 Hstop ->.
    assert (Hpath : re_match [Group not_newline] (path +:+ rest) = Some [path])
      by now apply re_match_group.
    split.
    + assert (Hm : re_match blob_pattern
                     ("https://github.com/" +:+ owner +:+ "/" +:+ repo +:+ "/blob/"
                        +:+ ref +:+ "/" +:+ path +:+ rest)
                   = Some [owner; repo; ref; path]).
      { unfold blob_pattern. rewrite re_match_lit.
        apply re_match_group; [exact Ho1|exact Ho2|reflexivity|].
        rewrite re_match_lit.
        apply re_match_group; [exact Hr1|exact Hr2|reflexivity|].
        rewrite re_match_lit.
        apply re_match_group; [exact Hf1|exact Hf2|reflexivity|].
        rewrite re_match_lit. exact Hpath. }
      unfold _blob_to_raw_url. now rewrite Hm.
    + assert (Hm : re_match repo_pattern
                     ("https://github.com/" +:+ owner +:+ "/" +:+ repo +:+ "/blob/"
                        +:+ ref +:+ "/" +:+ path +:+ rest)
                   = Some [owner; repo]).
      { unfold repo_pattern. rewrite re_match_lit.
        apply re_match_group; [exact Ho1|exact Ho2|reflexivity|].
        rewrite re_match_lit.
        apply re_match_group; [exact Hr1|exact Hr2|reflexivity|reflexivity]. }
      unfold _extract_repo_from_url. now rewrite Hm.
Qed.

End GitHubUrls.

(** ** The candidates a run handles *)

Section HandledCandidates.
Import Zip Downloader Storage Harvest UrlPath DryRun.

Variable sha256_hexdigest : bytes -> string.
Variable read_zip : bytes -> archive.
Variable verify_file : DownloadResult -> dict.
Variable extract_metadata : DownloadResult -> dict.
Variable world : string -> remote.




End HandledCandidates.

(** ** The entry of a candidate *)

Section CandidateEntry.
Import Config Zip Downloader Storage Harvest.

Variable sha256_hexdigest : bytes -> string.
Variable read_zip : bytes -> archive.
Variable verify_file : DownloadResult -> dict.
Variable extract_metadata : DownloadResult -> dict.
Variable world : string -> remote.



End CandidateEntry.

(** ** The rate a bucket enforces *)

Section BucketThroughput.
Import PyFloat RateLimit Throughput.
Local Open Scope Q_scope.




End BucketThroughput.


(** ** The backoff schedule *)

Section BackoffDelays.
Import PyFloat RateLimit BackoffSchedule.
Local Open Scope Q_scope.






End BackoffDelays.

